(** * sptools: backup and reconciliation of a streaming account

    A shallow embedding of [sptools/sptools.py].  The program talks to three
    collaborators: the Spotify client [sp], the TinyDB document store and the
    clock.  Values travelling between them are JSON documents (Python dicts,
    lists, strings, numbers, [None]); Python exceptions are explicit
    outcomes; the [while True] loops that drain paged collections carry a
    fuel argument. *)

From Stdlib Require Import List String Ascii ZArith Bool Arith Lia Permutation.
From Stdlib Require Import OrdersEx RelationClasses DecimalString.
Import ListNotations.
Local Open Scope string_scope.
Local Open Scope list_scope.

(** ** JSON values *)

(** Python objects as the program sees them.  A dict is an association list
    in insertion order; numbers are integers. *)
#[warnings="-register-all"]
Inductive json : Type :=
| JNull
| JBool (b : bool)
| JNum (n : Z)
| JStr (s : string)
| JList (l : list json)
| JObj (kv : list (string * json)).

(** ** Outcomes of a Python computation *)

Inductive exn : Type :=
| KeyError (k : string)
| TypeError
| ValueError
| SpotifyException (status : Z).

(** [Diverge] is the outcome of a loop that used up its fuel. *)
Inductive outcome (A : Type) : Type :=
| Return (a : A)
| Raise (e : exn)
| Diverge.
Arguments Return {A} a.
Arguments Raise {A} e.
Arguments Diverge {A}.

Definition obind {A B} (o : outcome A) (f : A -> outcome B) : outcome B :=
  match o with
  | Return a => f a
  | Raise e => Raise e
  | Diverge => Diverge
  end.

(** ** Dict and sequence primitives *)

Fixpoint lookup (k : string) (kv : list (string * json)) : option json :=
  match kv with
  | [] => None
  | (k', v) :: rest => if String.eqb k k' then Some v else lookup k rest
  end.

(** [d[k] = v] on a dict: an existing key keeps its position, a new key goes
    last. *)
Fixpoint assign (k : string) (v : json) (kv : list (string * json))
  : list (string * json) :=
  match kv with
  | [] => [(k, v)]
  | (k', v') :: rest =>
      if String.eqb k k' then (k', v) :: rest else (k', v') :: assign k v rest
  end.

(** [j[k]] for a string key: [KeyError] on a dict without the key,
    [TypeError] on anything that is not a dict. *)
Definition subscr (j : json) (k : string) : outcome json :=
  match j with
  | JObj kv =>
      match lookup k kv with
      | Some v => Return v
      | None => Raise (KeyError k)
      end
  | _ => Raise TypeError
  end.

(** [j[k] = v] for a string key. *)
Definition set_item (j : json) (k : string) (v : json) : outcome json :=
  match j with
  | JObj kv => Return (JObj (assign k v kv))
  | _ => Raise TypeError
  end.

Fixpoint chars (s : string) : list json :=
  match s with
  | EmptyString => []
  | String c rest => JStr (String c EmptyString) :: chars rest
  end.

(** The elements a [for] loop, a comprehension or [list.extend] visits: the
    elements of a list, the keys of a dict, the characters of a string;
    other values are not iterable. *)
Definition iter (j : json) : outcome (list json) :=
  match j with
  | JList l => Return l
  | JObj kv => Return (map (fun p => JStr (fst p)) kv)
  | JStr s => Return (chars s)
  | _ => Raise TypeError
  end.

Definition is_none (j : json) : bool :=
  match j with
  | JNull => true
  | _ => false
  end.

(** Python's [==] on JSON values: [True == 1], lists compare elementwise,
    dicts as unordered mappings. *)
Fixpoint py_eqb (a b : json) {struct a} : bool :=
  match a, b with
  | JNull, JNull => true
  | JBool x, JBool y => Bool.eqb x y
  | JBool x, JNum y => Z.eqb (Z.b2z x) y
  | JNum x, JBool y => Z.eqb x (Z.b2z y)
  | JNum x, JNum y => Z.eqb x y
  | JStr x, JStr y => String.eqb x y
  | JList xs, JList ys =>
      (fix go (xs ys : list json) {struct xs} : bool :=
         match xs, ys with
         | [], [] => true
         | x :: xs', y :: ys' => py_eqb x y && go xs' ys'
         | _, _ => false
         end) xs ys
  | JObj xs, JObj ys =>
      Nat.eqb (List.length xs) (List.length ys) &&
      (fix go (xs : list (string * json)) {struct xs} : bool :=
         match xs with
         | [] => true
         | (k, v) :: xs' =>
             match lookup k ys with
             | Some v' => py_eqb v v'
             | None => false
             end && go xs'
         end) xs
  | _, _ => false
  end.

(** Python's [>] on JSON values: strings by code point (the byte order of
    their UTF-8 text), numbers by value, lists lexicographically; every
    other pairing raises [TypeError]. *)
Fixpoint py_gt (a b : json) {struct a} : outcome bool :=
  match a, b with
  | JBool x, JBool y => Return (Z.ltb (Z.b2z y) (Z.b2z x))
  | JBool x, JNum y => Return (Z.ltb y (Z.b2z x))
  | JNum x, JBool y => Return (Z.ltb (Z.b2z y) x)
  | JNum x, JNum y => Return (Z.ltb y x)
  | JStr x, JStr y => Return (String.ltb y x)
  | JList xs, JList ys =>
      (fix go (xs ys : list json) {struct xs} : outcome bool :=
         match xs, ys with
         | [], _ => Return false
         | _ :: _, [] => Return true
         | x :: xs', y :: ys' =>
             if py_eqb x y then go xs' ys' else py_gt x y
         end) xs ys
  | _, _ => Raise TypeError
  end.

(** [max(iterable)]: the first largest element; [ValueError] on an empty
    iterable (max() arg is an empty sequence). *)
Fixpoint max_from (best : json) (rest : list json) : outcome json :=
  match rest with
  | [] => Return best
  | item :: rest' =>
      obind (py_gt item best)
            (fun gt => max_from (if gt then item else best) rest')
  end.

Definition py_max (l : list json) : outcome json :=
  match l with
  | [] => Raise ValueError
  | first :: rest => max_from first rest
  end.

(** *** Python sets of hashable JSON values *)

Definition hashable (j : json) : bool :=
  match j with
  | JList _ | JObj _ => false
  | _ => true
  end.

(** A set keeps one representative per class of [==]. *)
Definition pyset := list json.

Definition set_mem (x : json) (s : pyset) : bool := existsb (py_eqb x) s.

Definition set_add (x : json) (s : pyset) : outcome pyset :=
  if hashable x
  then Return (if set_mem x s then s else s ++ [x])
  else Raise TypeError.

(** [a - b]. *)
Definition set_diff (a b : pyset) : pyset :=
  filter (fun x => negb (set_mem x b)) a.

(** ** The collaborators *)

(** Requests to the Spotify client [sp], one constructor per method the
    program calls. *)
Inductive call : Type :=
| CurrentUserSavedTracks (limit offset : nat)
| CurrentlyPlaying
| CurrentUserPlaylists (limit offset : nat)
| Playlist (playlist_id : json)
| PlaylistItems (playlist_id : json) (limit offset : nat)
| Track (track_id : json)
| Me
| UserPlaylistCreate (user : json) (name : string)
| PlaylistAddItems (playlist_id : json) (items : list json).

(** The account as the client shows it: what each request answers.  The
    answers depend on the request alone: the account is taken to stay as it
    is while the program runs; what the program itself asks for is kept in
    the log of the [world] below. *)
Class Spotify : Type := { respond : call -> outcome json }.

(** What the program takes from Python itself: the [datetime] type with its
    two conversions, the successive readings of [datetime.datetime.now()],
    and the order in which a set is iterated, which the language leaves
    open. *)
Class Runtime : Type := {
  datetime : Type;
  isoformat : datetime -> string;
  fromisoformat : string -> option datetime;
  now : nat -> datetime;
  set_order : pyset -> list json;
  set_order_perm : forall s, Permutation (set_order s) s
}.

(** TinyDB: named tables of documents, searched in insertion order. *)
Definition document := list (string * json).

Inductive table_name : Type := saved_tracks_t | playlists_t.

Record tinydb : Type := {
  saved_tracks : list document;
  playlists : list document
}.

Definition table (db : tinydb) (name : table_name) : list document :=
  match name with
  | saved_tracks_t => saved_tracks db
  | playlists_t => playlists db
  end.

Definition append_doc (name : table_name) (doc : document) (db : tinydb)
  : tinydb :=
  match name with
  | saved_tracks_t =>
      {| saved_tracks := saved_tracks db ++ [doc]; playlists := playlists db |}
  | playlists_t =>
      {| saved_tracks := saved_tracks db; playlists := playlists db ++ [doc] |}
  end.

(** [Query().backup_time.exists()] *)
Definition backup_time_exists (doc : document) : bool :=
  match lookup "backup_time" doc with
  | Some _ => true
  | None => false
  end.

(** [Query().backup_time == backup_time] *)
Definition backup_time_is (backup_time : string) (doc : document) : bool :=
  match lookup "backup_time" doc with
  | Some v => py_eqb v (JStr backup_time)
  | None => false
  end.

(** The state a run can observe or change: the store, how often the clock
    was read, and the requests sent to the client so far, oldest first. *)
Record world : Type := {
  db : tinydb;
  ticks : nat;
  calls : list call
}.

(** ** The monad of the program: state, exceptions, fuel *)

Definition M (A : Type) : Type := world -> outcome A * world.

Definition ret {A} (a : A) : M A := fun w => (Return a, w).

Definition bind {A B} (m : M A) (f : A -> M B) : M B :=
  fun w =>
    match m w with
    | (Return a, w') => f a w'
    | (Raise e, w') => (Raise e, w')
    | (Diverge, w') => (Diverge, w')
    end.

Definition lift {A} (o : outcome A) : M A := fun w => (o, w).

Declare Scope prog_scope.
Delimit Scope prog_scope with prog.
Notation "x <- m ;; k" := (bind m (fun x => k))
  (at level 61, m at next level, right associativity) : prog_scope.
Notation "m ;;; k" := (bind m (fun _ => k))
  (at level 61, right associativity) : prog_scope.
Notation "j .[ k ]" := (lift (subscr j k))
  (at level 1, left associativity, format "j .[ k ]") : prog_scope.
Local Open Scope prog_scope.

(** A [for] loop whose body updates the loop's local variables [s]. *)
Fixpoint for_each {A S} (l : list A) (body : S -> A -> M S) (s : S) : M S :=
  match l with
  | [] => ret s
  | x :: rest => s' <- body s x ;; for_each rest body s'
  end.

(** A list comprehension. *)
Fixpoint comprehension {A B} (f : A -> M B) (l : list A) : M (list B) :=
  match l with
  | [] => ret []
  | x :: rest => y <- f x ;; ys <- comprehension f rest ;; ret (y :: ys)
  end.

Section Program.

Context {sp_account : Spotify} {py : Runtime}.

(** A method call on [sp]: logged, then answered. *)
Definition sp (c : call) : M json :=
  fun w =>
    (respond c,
     {| db := db w; ticks := ticks w; calls := calls w ++ [c] |}).

(** [datetime.datetime.now().isoformat()] *)
Definition now_isoformat : M string :=
  fun w =>
    (Return (isoformat (now (ticks w))),
     {| db := db w; ticks := S (ticks w); calls := calls w |}).

Definition get_db : M tinydb := fun w => (Return (db w), w).

(** [db.table(name).search(cond)] *)
Definition search (name : table_name) (cond : document -> bool)
  : M (list document) :=
  d <- get_db ;; ret (filter cond (table d name)).

(** [db.table(name).insert(doc)]: TinyDB stores mappings only. *)
Definition insert (name : table_name) (doc : json) : M unit :=
  match doc with
  | JObj kv =>
      fun w =>
        (Return tt,
         {| db := append_doc name kv (db w);
            ticks := ticks w; calls := calls w |})
  | _ => lift (Raise ValueError)
  end.

(** ** The program *)

(** The paging loop of [get_saved_tracks], [get_all_playlists] and
    [get_playlist_tracks]; the three differ in [MAX_LIMIT] and in the
    request [fetch] only.
<<
    while True:
        response = fetch(limit=MAX_LIMIT, offset=offset)
        tracks.extend(response["items"])
        offset += MAX_LIMIT
        if response["next"] is None:
            break
>> *)
Fixpoint drain (fuel : nat) (MAX_LIMIT : nat) (fetch : nat -> nat -> call)
  (tracks : list json) (offset : nat) : M (list json) :=
  match fuel with
  | O => lift Diverge
  | S fuel' =>
      response <- sp (fetch MAX_LIMIT offset) ;;
      items <- response.["items"] ;;
      items <- lift (iter items) ;;
      let tracks := tracks ++ items in
      let offset := offset + MAX_LIMIT in
      next <- response.["next"] ;;
      if is_none next then ret tracks
      else drain fuel' MAX_LIMIT fetch tracks offset
  end.

Definition get_saved_tracks (fuel : nat) : M (list json) :=
  drain fuel 50 CurrentUserSavedTracks [] 0.

Definition get_now_playing (full : bool) : M json :=
  currently_playing <- sp CurrentlyPlaying ;;
  if negb full then
    item <- currently_playing.["item"] ;;
    title <- item.["name"] ;;
    item <- currently_playing.["item"] ;;
    artists <- item.["artists"] ;;
    artists <- lift (iter artists) ;;
    artists <- comprehension (fun artist => artist.["name"]) artists ;;
    item <- currently_playing.["item"] ;;
    album <- item.["album"] ;;
    album_name <- album.["name"] ;;
    ret (JObj [("title", title);
               ("artists", JList artists);
               ("album_name", album_name)])
  else ret currently_playing.

Definition get_all_playlists (fuel : nat) : M (list json) :=
  drain fuel 50 CurrentUserPlaylists [] 0.

Definition get_playlist_tracks (fuel : nat) (playlist_id : json)
  : M (list json) :=
  drain fuel 100 (PlaylistItems playlist_id) [] 0.

(** [playlist_info["tracks"]["items"] = tracks] updates the dict that
    [playlist_info] holds under "tracks" in place; here the updated page is
    put back under "tracks". *)
Definition get_playlist (fuel : nat) (playlist_id : json) : M json :=
  playlist_info <- sp (Playlist playlist_id) ;;
  page <- playlist_info.["tracks"] ;;
  next <- page.["next"] ;;
  if negb (is_none next) then
    tracks <- get_playlist_tracks fuel playlist_id ;;
    page <- playlist_info.["tracks"] ;;
    page <- lift (set_item page "items" (JList tracks)) ;;
    lift (set_item playlist_info "tracks" page)
  else ret playlist_info.

Definition backup_playlist (fuel : nat) (playlist_id : json)
  (backup_time : string) : M unit :=
  playlist <- get_playlist fuel playlist_id ;;
  playlist <- lift (set_item playlist "backup_time" (JStr backup_time)) ;;
  insert playlists_t playlist.

Definition backup_all_playlists (fuel : nat) (only_mine : bool)
  (backup_time : option string) : M unit :=
  backup_time <- match backup_time with
                 | None => now_isoformat
                 | Some t => ret t
                 end ;;
  playlists <- get_all_playlists fuel ;;
  for_each playlists
    (fun _ playlist =>
       skip <- (if only_mine then
                  owner <- playlist.["owner"] ;;
                  owner_id <- owner.["id"] ;;
                  me <- sp Me ;;
                  my_id <- me.["id"] ;;
                  ret (negb (py_eqb owner_id my_id))
                else ret false) ;;
       if skip then ret tt
       else
         playlist.["name"] ;;;
         playlist.["id"] ;;;
         playlist_id <- playlist.["id"] ;;
         backup_playlist fuel playlist_id backup_time)
    tt.

Definition backup_saved_tracks (fuel : nat) (backup_time : option string)
  : M unit :=
  backup_time <- match backup_time with
                 | None => now_isoformat
                 | Some t => ret t
                 end ;;
  tracks <- get_saved_tracks fuel ;;
  for_each tracks
    (fun _ track =>
       track <- lift (set_item track "backup_time" (JStr backup_time)) ;;
       insert saved_tracks_t track)
    tt.

Definition backup (fuel : nat) (only_mine : bool) : M unit :=
  backup_time <- now_isoformat ;;
  backup_saved_tracks fuel (Some backup_time) ;;;
  backup_all_playlists fuel only_mine (Some backup_time).

Definition get_most_recent_backup_time : M datetime :=
  found <- search saved_tracks_t backup_time_exists ;;
  times <- comprehension (fun track => (JObj track).["backup_time"]) found ;;
  backup_time <- lift (py_max times) ;;
  match backup_time with
  | JStr s =>
      match fromisoformat s with
      | Some t => ret t
      | None => lift (Raise ValueError)
      end
  | _ => lift (Raise TypeError)
  end.

(** The two loops that collect track ids into a set. *)
Definition add_track_id (ids : pyset) (track : json) : M pyset :=
  t <- track.["track"] ;;
  id <- t.["id"] ;;
  lift (set_add id ids).

Definition make_playlist_with_liked_but_not_playlisted_tracks
  : M (list json) :=
  most_recent <- get_most_recent_backup_time ;;
  let backup_time := isoformat most_recent in
  saved_tracks <- search saved_tracks_t (backup_time_is backup_time) ;;
  playlists <- search playlists_t (backup_time_is backup_time) ;;
  playlist_track_ids <-
    for_each playlists
      (fun ids playlist =>
         page <- (JObj playlist).["tracks"] ;;
         items <- page.["items"] ;;
         items <- lift (iter items) ;;
         for_each items add_track_id ids)
      [] ;;
  saved_track_ids <-
    for_each saved_tracks (fun ids track => add_track_id ids (JObj track))
      [] ;;
  let track_ids_to_add := set_diff saved_track_ids playlist_track_ids in
  fetched <-
    for_each (set_order track_ids_to_add)
      (fun acc track_id =>
         track <- sp (Track track_id) ;;
         uri <- track.["uri"] ;;
         ret (fst acc ++ [uri], snd acc ++ [track]))
      ([], []) ;;
  let tracks_to_add_uri := fst fetched in
  let tracks_to_add := snd fetched in
  let playlist_name := ("Liked but not playlisted " ++ backup_time)%string in
  me <- sp Me ;;
  user <- me.["id"] ;;
  playlist <- sp (UserPlaylistCreate user playlist_name) ;;
  playlist_id <- playlist.["id"] ;;
  sp (PlaylistAddItems playlist_id tracks_to_add_uri) ;;;
  ret tracks_to_add.

End Program.

(** ** The command line *)

Definition AVAILABLE_COMMANDS : list string :=
  ["backup"; "now_playing"; "compile_unplaylisted"].

(** What [main] takes from the operating system and the standard library:
    the state of the file system with the three operations [main] performs
    on it, [Path(json_path).parent], and [json.dumps(result, indent=4)].
    A failed operation reports its error and may still have changed the
    file system. *)
Inductive oserror : Type :=
| FileExistsError (path : string)
| OSError (errno : Z).

Class OS : Type := {
  files : Type;
  is_file : string -> files -> bool;
  parent : string -> string;
  mkdir_parents : string -> files -> option oserror * files;
  write_text : string -> string -> files -> option oserror * files;
  dumps : json -> string
}.

(** How a run of [main] ends. *)
Inductive failure : Type :=
| Exn (e : exn)
| OS_error (e : oserror).

Inductive finished (A : Type) : Type :=
| Finished (a : A)
| Failed (f : failure)
| Never.
Arguments Finished {A} a.
Arguments Failed {A} f.
Arguments Never {A}.

Section CommandLine.

Context {sp_account : Spotify} {py : Runtime} {os : OS}.

(** The process: the world of the program, the file system, and what
    [pprint] wrote, oldest first. *)
Record process : Type := {
  the_world : world;
  disk : files;
  printed : list json
}.

(** One of the three operations as [main] calls it, its result as the
    Python value [main] holds in [result]. *)
Definition run {A} (m : M A) (value : A -> json) (p : process)
  : finished json * process :=
  let p' w := {| the_world := w; disk := disk p; printed := printed p |} in
  match m (the_world p) with
  | (Return a, w) => (Finished (value a), p' w)
  | (Raise e, w) => (Failed (Exn e), p' w)
  | (Diverge, w) => (Never, p' w)
  end.

(** The [if]/[elif] chain of [main]; [None] is its [else] branch.
    [backup()] is called with its default [only_mine=False] and returns
    [None]. *)
Definition dispatch (fuel : nat) (command : string) (full : bool)
  : option (process -> finished json * process) :=
  if String.eqb command "backup" then
    Some (run (backup fuel false) (fun _ => JNull))
  else if String.eqb command "now_playing" then
    Some (run (get_now_playing full) (fun r => r))
  else if String.eqb command "compile_unplaylisted" then
    Some (run make_playlist_with_liked_but_not_playlisted_tracks JList)
  else None.

(** The part of [main] after the command: print, then write the file. *)
Definition report (result : json) (json_path : option string)
  (print overwrite : bool) (p : process) : finished json * process :=
  let p := if print
           then {| the_world := the_world p; disk := disk p;
                   printed := printed p ++ [result] |}
           else p in
  match json_path with
  | None => (Finished result, p)
  | Some json_path =>
      if is_file json_path (disk p) && negb overwrite then
        (Failed (OS_error (FileExistsError json_path)), p)
      else
        let on d := {| the_world := the_world p; disk := d;
                       printed := printed p |} in
        match mkdir_parents (parent json_path) (disk p) with
        | (Some e, d) => (Failed (OS_error e), on d)
        | (None, d) =>
            match write_text json_path (dumps result) d with
            | (Some e, d') => (Failed (OS_error e), on d')
            | (None, d') => (Finished result, on d')
            end
        end
  end.

Definition main (fuel : nat) (command : string) (json_path : option string)
  (print full overwrite : bool) (p : process) : finished json * process :=
  match dispatch fuel command full with
  | None => (Failed (Exn ValueError), p)
  | Some operation =>
      match operation p with
      | (Finished result, p) => report result json_path print overwrite p
      | stopped => stopped
      end
  end.

End CommandLine.

(** ** The first version of the program, [src/sptools.py] *)

Module Legacy.

Definition AVAILABLE_COMMANDS : list string := ["saved_tracks"; "now_playing"].

Section Program.

Context {sp_account : Spotify} {os : OS}.

(** One request, with the client's default [offset=0]; the answer is
    returned as it came. *)
Definition get_saved_tracks (limit : nat) : M json :=
  sp (CurrentUserSavedTracks limit 0).

(** The bodies of these are [pass]. *)
Definition get_all_playlists : M json := ret JNull.

Definition backup_playlist (playlist_id : json) (json_path : option string)
  : M json := ret JNull.

Definition backup_all_playlists (json_path : option string) : M json :=
  ret JNull.

Definition make_playlist_with_liked_but_not_playlisted_tracks : M json :=
  ret JNull.

Definition dispatch (command : string) (full : bool)
  : option (process -> finished json * process) :=
  if String.eqb command "saved_tracks" then
    Some (run (get_saved_tracks (if full then 1000 else 20)) (fun r => r))
  else if String.eqb command "now_playing" then
    Some (run (get_now_playing full) (fun r => r))
  else None.

(** This [main] ends without a [return]: its value is [None]. *)
Definition main (command : string) (json_path : option string)
  (print full overwrite : bool) (p : process) : finished json * process :=
  match dispatch command full with
  | None => (Failed (Exn ValueError), p)
  | Some operation =>
      match operation p with
      | (Finished result, p) =>
          match report result json_path print overwrite p with
          | (Finished _, p) => (Finished JNull, p)
          | stopped => stopped
          end
      | stopped => stopped
      end
  end.

End Program.

End Legacy.

(** * Vocabulary of the properties *)

(** The world after one more request to the client. *)
Definition logged (w : world) (cs : list call) : world :=
  {| db := db w; ticks := ticks w; calls := calls w ++ cs |}.

(** A payload with a current item: the item carries a name, a list of
    artists each carrying a name, and an album carrying a name. *)
Definition has_current_item (payload : json) (title : json)
  (artist_names : list json) (album_name : json) : Prop :=
  exists item artists album,
    subscr payload "item" = Return item /\
    subscr item "name" = Return title /\
    subscr item "artists" = Return (JList artists) /\
    Forall2 (fun artist name => subscr artist "name" = Return name)
            artists artist_names /\
    subscr item "album" = Return album /\
    subscr album "name" = Return album_name.

(** Number of pages of size [P] that hold [n] items; an empty collection
    still has one (empty) page. *)
Definition pages (n P : nat) : nat := S ((n - 1) / P).

(** The offsets the loop asks for: [0], [P], [2P], ... *)
Definition page_requests (fetch : nat -> nat -> call) (P n : nat)
  : list call :=
  map (fun i => fetch P (i * P)) (seq 0 n).

(** The values of "backup_time" over the documents that carry one. *)
Definition backup_times (docs : list document) : list json :=
  flat_map (fun doc => match lookup "backup_time" doc with
                       | Some v => [v]
                       | None => []
                       end) docs.

(** The first largest of [best :: rest]. *)
Definition latest_of (best : string) (rest : list string) : string :=
  fold_left (fun best item => if String.ltb best item then item else best)
            rest best.

(** An operation that only talks to the client: its outcome and the requests
    it sends are the same from every world, and it changes nothing else. *)
Definition reads_only {A} (m : M A) : Prop :=
  exists o cs, forall w, m w = (o, logged w cs).

(** A relation between the worlds before and after, kept by every step. *)
Definition preserves (R : world -> world -> Prop) {A} (m : M A) : Prop :=
  forall w, R w (snd (m w)).

(** A document tagged with the backup time [t]. *)
Definition stamped (t : string) (doc : document) : Prop :=
  lookup "backup_time" doc = Some (JStr t).

Definition other (name : table_name) : table_name :=
  match name with
  | saved_tracks_t => playlists_t
  | playlists_t => saved_tracks_t
  end.

(** From [w] to [w'] table [name] only gained documents, all tagged [t];
    the other table and the clock were left alone. *)
Definition appends_to (name : table_name) (t : string) (w w' : world)
  : Prop :=
  (exists docs,
      table (db w') name = table (db w) name ++ docs /\
      Forall (stamped t) docs) /\
  table (db w') (other name) = table (db w) (other name) /\
  ticks w' = ticks w.

(** Two operations that end the same way from any two worlds. *)
Definition same_outcome (m m' : M unit) : Prop :=
  forall w w', fst (m w) = fst (m' w').

(** The value a hashable id stands for in a set: [True] and [1] (and
    [False] and [0]) are one element, every other id is itself. *)
Definition key (j : json) : json :=
  match j with
  | JBool b => JNum (Z.b2z b)
  | _ => j
  end.

Definition all_hashable (l : list json) : Prop :=
  Forall (fun x => hashable x = true) l.

(** The set built by adding [xs] one by one to [s]. *)
Definition add_all (s : pyset) (xs : list json) : pyset :=
  fold_left (fun s x => if set_mem x s then s else s ++ [x]) xs s.

(** The ids liked but in no playlist: [saved_track_ids - playlist_track_ids]
    for the two sets built from [B] and [A]. *)
Definition difference (B A : list json) : pyset :=
  set_diff (add_all [] B) (add_all [] A).

(** [track["track"]["id"]] *)
Definition track_id_of (track : json) : outcome json :=
  obind (subscr track "track") (fun t => subscr t "id").

(** The ids of the track items of a stored playlist, in order. *)
Definition playlist_track_ids_are (doc : document) (ids : list json)
  : Prop :=
  exists page items elems,
    subscr (JObj doc) "tracks" = Return page /\
    subscr page "items" = Return items /\
    iter items = Return elems /\
    Forall2 (fun track id => track_id_of track = Return id) elems ids.

Definition is_track_lookup (c : call) : Prop := exists id, c = Track id.

(** An answer to a paged request that carries items and points to a next
    page. *)
Definition has_more (response : json) : Prop :=
  exists items elems next,
    subscr response "items" = Return items /\
    iter items = Return elems /\
    subscr response "next" = Return next /\
    is_none next = false.

(** The compact form [r] of a playback payload: what
    [get_now_playing(full=False)] builds when every lookup succeeds.  The
    artists may be any iterable whose elements carry a name. *)
Definition compact_of (payload r : json) : Prop :=
  exists item title artists elems names album album_name,
    subscr payload "item" = Return item /\
    subscr item "name" = Return title /\
    subscr item "artists" = Return artists /\
    iter artists = Return elems /\
    Forall2 (fun artist name => subscr artist "name" = Return name)
            elems names /\
    subscr item "album" = Return album /\
    subscr album "name" = Return album_name /\
    r = JObj [("title", title);
              ("artists", JList names);
              ("album_name", album_name)].

(** The world after [docs] were stored in table [name]. *)
Definition stored (name : table_name) (docs : list document) (w : world)
  : world :=
  {| db := match name with
           | saved_tracks_t =>
               {| saved_tracks := saved_tracks (db w) ++ docs;
                  playlists := playlists (db w) |}
           | playlists_t =>
               {| saved_tracks := saved_tracks (db w);
                  playlists := playlists (db w) ++ docs |}
           end;
     ticks := ticks w;
     calls := calls w |}.

(** A record of the client with its backup time added. *)
Definition stamp (t : string) (record : document) : document :=
  assign "backup_time" (JStr t) record.

(** A world with nothing stored, nothing asked, the clock unread. *)
Definition blank : world :=
  {| db := {| saved_tracks := []; playlists := [] |};
     ticks := 0; calls := [] |}.

(** The requests that only read the account. *)
Definition reading (c : call) : Prop :=
  match c with
  | UserPlaylistCreate _ _ | PlaylistAddItems _ _ => False
  | _ => True
  end.

(** From [w] to [w'] the client was asked only requests satisfying [P]. *)
Definition asked_only (P : call -> Prop) (w w' : world) : Prop :=
  exists cs, calls w' = calls w ++ cs /\ Forall P cs.

(** From [w] to [w'] the store and the clock stayed as they were. *)
Definition same_store (w w' : world) : Prop :=
  db w' = db w /\ ticks w' = ticks w.

Definition is_string (j : json) : bool :=
  match j with
  | JStr _ => true
  | _ => false
  end.

Section Vocabulary.

Context {sp_account : Spotify} {py : Runtime}.

(** The client serves the collection [l] in pages through [fetch]: asked
    for [limit] items from [offset] it answers with that slice under
    "items", and with a "next" that is [None] exactly when the slice reaches
    the end of [l]. *)
Definition serves (fetch : nat -> nat -> call) (l : list json) : Prop :=
  forall limit offset, exists response next,
    respond (fetch limit offset) = Return response /\
    subscr response "items" = Return (JList (firstn limit (skipn offset l))) /\
    subscr response "next" = Return next /\
    (is_none next = true <-> List.length l <= offset + limit).

(** The world after [datetime.datetime.now()] was read once. *)
Definition tick (w : world) : world :=
  {| db := db w; ticks := S (ticks w); calls := calls w |}.

(** The loop that looks each missing track up. *)
Definition fetch_track (acc : list json * list json) (track_id : json)
  : M (list json * list json) :=
  track <- sp (Track track_id) ;;
  uri <- track.["uri"] ;;
  ret (fst acc ++ [uri], snd acc ++ [track]).

(** What [make_playlist_with_liked_but_not_playlisted_tracks] does once it
    holds the ids to add: look the tracks up, create the playlist, add the
    URIs. *)
Definition fetch_and_create (backup_time : string) (track_ids_to_add : pyset)
  : M (list json) :=
  fetched <- for_each (set_order track_ids_to_add) fetch_track ([], []) ;;
  me <- sp Me ;;
  user <- me.["id"] ;;
  playlist <-
    sp (UserPlaylistCreate user
          ("Liked but not playlisted " ++ backup_time)%string) ;;
  playlist_id <- playlist.["id"] ;;
  sp (PlaylistAddItems playlist_id (fst fetched)) ;;;
  ret (snd fetched).

(** The snapshot the reconciliation works on: the most recent backup time,
    the ids [B] of the saved tracks stored under it and the ids of the track
    items of each playlist stored under it, all of them hashable. *)
Definition snapshot (w : world) (most_recent : datetime) (B : list json)
  (idss : list (list json)) : Prop :=
  get_most_recent_backup_time w = (Return most_recent, w) /\
  Forall2 (fun doc id => track_id_of (JObj doc) = Return id)
          (filter (backup_time_is (isoformat most_recent))
                  (saved_tracks (db w))) B /\
  Forall2 playlist_track_ids_are
          (filter (backup_time_is (isoformat most_recent))
                  (playlists (db w))) idss /\
  all_hashable B /\ all_hashable (List.concat idss).

(** What [get_playlist] returns for a playlist id and what it asks the
    client on the way; neither depends on the world it runs in. *)
Definition playlist_detail (fuel : nat) (playlist_id : json) : outcome json :=
  fst (get_playlist fuel playlist_id blank).

Definition playlist_requests (fuel : nat) (playlist_id : json) : list call :=
  calls (snd (get_playlist fuel playlist_id blank)).

(** The backup time a backup function works with, given its argument, and
    the world once it is settled: [None] makes the function read the
    clock. *)
Definition time_used (backup_time : option string) (w : world) : string :=
  match backup_time with
  | Some t => t
  | None => isoformat (now (ticks w))
  end.

Definition time_settled (backup_time : option string) (w : world) : world :=
  match backup_time with
  | Some _ => w
  | None => tick w
  end.

(** What [backup_all_playlists] stores for one entry [h] of the listing:
    nothing when only the user's own playlists are wanted and [h] has a
    different owner, else the detail of the playlist [h] names. *)
Definition header_stored (fuel : nat) (only_mine : bool) (my_id h : json)
  (docs : list document) : Prop :=
  (only_mine = true /\
   exists owner owner_id,
     subscr h "owner" = Return owner /\
     subscr owner "id" = Return owner_id /\
     py_eqb owner_id my_id = false /\
     docs = []) \/
  ((only_mine = false \/
    exists owner owner_id,
      subscr h "owner" = Return owner /\
      subscr owner "id" = Return owner_id /\
      py_eqb owner_id my_id = true) /\
   exists name playlist_id info,
     subscr h "name" = Return name /\
     subscr h "id" = Return playlist_id /\
     playlist_detail fuel playlist_id = Return (JObj info) /\
     docs = [info]).

End Vocabulary.

(** * A small account, for the examples *)

Module Example.

Definition track (id : string) : json :=
  JObj [("id", JStr id);
        ("name", JStr ("Track " ++ id)%string);
        ("uri", JStr ("spotify:track:" ++ id)%string)].

(** An entry of the saved tracks or of the items of a playlist. *)
Definition item (id : string) : json :=
  JObj [("added_at", JStr "2022-12-24T18:00:00Z"); ("track", track id)].

(** The answer to a paged request over the collection [l]. *)
Definition page (l : list json) (limit offset : nat) : json :=
  JObj [("href", JStr "https://api.spotify.com/v1/me");
        ("items", JList (firstn limit (skipn offset l)));
        ("next", if Nat.leb (List.length l) (offset + limit)
                 then JNull else JStr "https://api.spotify.com/v1/next")].

Definition mix_header : list (string * json) :=
  [("id", JStr "mix"); ("name", JStr "Mix");
   ("owner", JObj [("id", JStr "me")])].

(** The payload of the current playback while "Song" plays. *)
Definition song : json :=
  JObj [("is_playing", JBool true);
        ("item",
         JObj [("name", JStr "Song");
               ("artists",
                JList [JObj [("name", JStr "A")]; JObj [("name", JStr "B")]]);
               ("album", JObj [("name", JStr "Album")])])].

(** An account with the liked tracks [liked], one playlist "mix" holding
    the tracks [mix], the playback [playing], and lookups that fail for the
    ids in [missing]. *)
Definition account (liked mix : list string) (playing : json)
  (missing : list string) : Spotify :=
  {| respond c :=
       match c with
       | CurrentUserSavedTracks limit offset =>
           Return (page (map item liked) limit offset)
       | CurrentlyPlaying => Return playing
       | CurrentUserPlaylists limit offset =>
           Return (page [JObj mix_header] limit offset)
       | Playlist _ =>
           Return (JObj (mix_header ++
                         [("tracks", page (map item mix) 100 0)]))
       | PlaylistItems _ limit offset =>
           Return (page (map item mix) limit offset)
       | Track (JStr id) =>
           if existsb (String.eqb id) missing
           then Raise (SpotifyException 404)
           else Return (track id)
       | Track _ => Raise (SpotifyException 400)
       | Me => Return (JObj [("id", JStr "me")])
       | UserPlaylistCreate _ name =>
           Return (JObj [("id", JStr "new"); ("name", JStr name)])
       | PlaylistAddItems _ _ =>
           Return (JObj [("snapshot_id", JStr "s1")])
       end |}.

(** Datetimes kept as their ISO text; the clock shows January, then June;
    sets are iterated last-added first. *)
Definition python : Runtime :=
  {| datetime := string;
     isoformat := fun t => t;
     fromisoformat := fun s => Some s;
     now := fun n => nth n ["2023-01-01T00:00:00"; "2023-06-01T00:00:00"]
                         "2024-01-01T00:00:00";
     set_order := @rev json;
     set_order_perm := fun s => Permutation_sym (Permutation_rev s) |}.

Definition numbered (n : nat) : string :=
  NilEmpty.string_of_uint (Nat.to_uint n).

Definition empty : world :=
  {| db := {| saved_tracks := []; playlists := [] |};
     ticks := 0; calls := [] |}.

(** Liked 1, 2, 3, 4; the playlist holds 2 and 4. *)
Definition partly : Spotify := account ["1"; "2"; "3"; "4"] ["2"; "4"] song [].

(** The same, but track 3 cannot be looked up. *)
Definition faulty : Spotify :=
  account ["1"; "2"; "3"; "4"] ["2"; "4"] song ["3"].

(** Liked 2 and 4, both in the playlist. *)
Definition covered : Spotify := account ["2"; "4"] ["2"; "4"] song [].

(** Nothing is playing. *)
Definition idle : Spotify := account [] [] JNull [].

(** A playlist of 150 tracks, more than one page. *)
Definition long : Spotify :=
  account [] (map numbered (seq 0 150)) song [].

(** The store after one backup of [partly], of [covered]. *)
Definition backed_up (acc : Spotify) : world :=
  snd (@backup acc python 3 false empty).

End Example.

(** * More accounts and a file system, for the examples *)

Module Cases.

Import Example.

(** The account [base] with some requests answered otherwise. *)
Definition override (base : Spotify) (f : call -> option (outcome json))
  : Spotify :=
  {| respond c := match f c with
                  | Some o => o
                  | None => @respond base c
                  end |}.

(** The saved tracks as the documents they are. *)
Definition item_doc (id : string) : document :=
  [("added_at", JStr "2022-12-24T18:00:00Z"); ("track", track id)].

Definition mix_detail (mix : list string) : document :=
  mix_header ++ [("tracks", page (map item mix) 100 0)].

(** The second page of saved tracks is refused. *)
Definition throttled : Spotify :=
  override (account (map numbered (seq 0 60)) [] song [])
    (fun c => match c with
              | CurrentUserSavedTracks _ (S _) =>
                  Some (Raise (SpotifyException 429))
              | _ => None
              end).

(** Every page of saved tracks points to a next one. *)
Definition endless : Spotify :=
  override partly
    (fun c => match c with
              | CurrentUserSavedTracks _ _ =>
                  Some (Return (JObj [("items", JList [item "1"]);
                                      ("next", JStr "more")]))
              | _ => None
              end).

(** The playlists cannot be listed. *)
Definition unlisted : Spotify :=
  override partly
    (fun c => match c with
              | CurrentUserPlaylists _ _ =>
                  Some (Raise (SpotifyException 503))
              | _ => None
              end).

(** Items cannot be added to playlists. *)
Definition locked : Spotify :=
  override partly
    (fun c => match c with
              | PlaylistAddItems _ _ => Some (Raise (SpotifyException 403))
              | _ => None
              end).

(** No liked track, one playlist. *)
Definition unliked : Spotify := account [] ["2"; "4"] song [].

(** A store with one saved track whose backup time is a number. *)
Definition odd_store : world :=
  {| db := {| saved_tracks :=
                [stamp "2023-01-01T00:00:00" (item_doc "1");
                 assign "backup_time" (JNum 20230601) (item_doc "2")];
              playlists := [] |};
     ticks := 0; calls := [] |}.

(** A file system that is a table from paths to texts, with directories
    made on demand; the parent of a path is what precedes its last
    slash. *)
Fixpoint has_slash (s : string) : bool :=
  match s with
  | EmptyString => false
  | String c rest => Ascii.eqb c "/" || has_slash rest
  end.

Fixpoint dirname (s : string) : string :=
  match s with
  | EmptyString => EmptyString
  | String c rest => if has_slash rest then String c (dirname rest)
                     else EmptyString
  end.

Definition quote : string := String (Ascii.ascii_of_nat 34) EmptyString.

(** A plain one-line rendering in the place of [json.dumps]. *)
Fixpoint render (j : json) : string :=
  match j with
  | JNull => "null"
  | JBool true => "true"
  | JBool false => "false"
  | JNum n => NilEmpty.string_of_int (Z.to_int n)
  | JStr s => quote ++ s ++ quote
  | JList l =>
      "[" ++ (fix items (l : list json) : string :=
                match l with
                | [] => ""
                | [x] => render x
                | x :: rest => render x ++ ", " ++ items rest
                end) l ++ "]"
  | JObj kv =>
      "{" ++ (fix fields (kv : list (string * json)) : string :=
                match kv with
                | [] => ""
                | [(k, v)] => quote ++ k ++ quote ++ ": " ++ render v
                | (k, v) :: rest =>
                    quote ++ k ++ quote ++ ": " ++ render v ++ ", "
                    ++ fields rest
                end) kv ++ "}"
  end%string.

Record tree : Type := {
  directories : list string;
  texts : list (string * string)
}.

Definition table_fs : OS :=
  {| files := tree;
     is_file := fun path fs =>
                  existsb (fun entry => String.eqb path (fst entry))
                          (texts fs);
     parent := dirname;
     mkdir_parents := fun dir fs =>
                        (None, {| directories := dir :: directories fs;
                                  texts := texts fs |});
     write_text := fun path text fs =>
                     (None,
                      {| directories := directories fs;
                         texts := (path, text)
                                  :: filter (fun entry =>
                                               negb (String.eqb path
                                                                (fst entry)))
                                            (texts fs) |});
     dumps := render |}.

(** A process over the empty store whose disk holds "out/liked.json". *)
Definition started : @process table_fs :=
  @Build_process table_fs empty
    {| directories := ["out"]; texts := [("out/liked.json", "[]")] |}
    [].

End Cases.

(** * Properties *)

(** ** Generic facts about the monad *)

Lemma bind_return {A B} (m : M A) (f : A -> M B) w a w' :
  m w = (Return a, w') -> bind m f w = f a w'.
Proof. intros H. unfold bind. now rewrite H. Qed.

Lemma bind_raise {A B} (m : M A) (f : A -> M B) w e w' :
  m w = (Raise e, w') -> bind m f w = (Raise e, w').
Proof. intros H. unfold bind. now rewrite H. Qed.

Lemma bind_diverge {A B} (m : M A) (f : A -> M B) w w' :
  m w = (Diverge, w') -> bind m f w = (Diverge, w').
Proof. intros H. unfold bind. now rewrite H. Qed.

Lemma logged_nil w : logged w [] = w.
Proof. destruct w; unfold logged; simpl. now rewrite app_nil_r. Qed.

Lemma logged_app w cs ds : logged (logged w cs) ds = logged w (cs ++ ds).
Proof. unfold logged; simpl. now rewrite app_assoc. Qed.

Lemma bind_lift {A B} (o : outcome A) (f : A -> M B) w a :
  o = Return a -> bind (lift o) f w = f a w.
Proof. intros ->. reflexivity. Qed.

Lemma bind_lift_raise {A B} (o : outcome A) (f : A -> M B) w e :
  o = Raise e -> bind (lift o) f w = (Raise e, w).
Proof. intros ->. reflexivity. Qed.

Lemma bind_ret {A B} (a : A) (f : A -> M B) w : bind (ret a) f w = f a w.
Proof. reflexivity. Qed.

Lemma bind_assoc {A B C} (m : M A) (f : A -> M B) (g : B -> M C) w :
  bind (bind m f) g w = bind m (fun a => bind (f a) g) w.
Proof. unfold bind. destruct (m w) as [[a|e|] w']; reflexivity. Qed.

Lemma comprehension_subscr (k : string) (l vs : list json) w :
  Forall2 (fun x v => subscr x k = Return v) l vs ->
  comprehension (fun x => x.[k]) l w = (Return vs, w).
Proof.
  induction 1 as [|x v l vs Hx _ IH]; simpl; [reflexivity|].
  rewrite (bind_lift _ _ _ _ Hx).
  rewrite (bind_return _ _ _ _ _ IH). reflexivity.
Qed.

Lemma lookup_assign_same k v kv : lookup k (assign k v kv) = Some v.
Proof.
  induction kv as [|[k' v'] kv IH]; cbn [assign lookup].
  - now rewrite String.eqb_refl.
  - destruct (String.eqb k k') eqn:E; cbn [lookup]; rewrite E; auto.
Qed.

Lemma lookup_assign_other k k' v kv :
  String.eqb k' k = false -> lookup k' (assign k v kv) = lookup k' kv.
Proof.
  intros Hne. induction kv as [|[k0 v0] kv IH]; cbn [assign lookup].
  - now rewrite Hne.
  - destruct (String.eqb k k0) eqn:E; cbn [lookup].
    + apply String.eqb_eq in E. subst k0. now rewrite Hne.
    + now rewrite IH.
Qed.

Section ClientFacts.

Context {sp_account : Spotify}.

Lemma sp_run c w : sp c w = (respond c, logged w [c]).
Proof. reflexivity. Qed.

Lemma bind_sp {B} c (f : json -> M B) w a :
  respond c = Return a -> bind (sp c) f w = f a (logged w [c]).
Proof. intros H. unfold bind. rewrite sp_run, H. reflexivity. Qed.

Lemma bind_sp_raise {B} c (f : json -> M B) w e :
  respond c = Raise e -> bind (sp c) f w = (Raise e, logged w [c]).
Proof. intros H. unfold bind. rewrite sp_run, H. reflexivity. Qed.

End ClientFacts.

(** ** Current playback *)

Section NowPlaying.

Context {sp_account : Spotify} {py : Runtime}.

(** C9: with [full] set the answer of the client is returned as it came;
    with [full] unset, a payload with a current item is turned into the
    dict of exactly the three keys title, artists and album_name, the artist
    names in their original order.  One request is sent and nothing
    stored. *)
Theorem now_playing_shapes (payload title album_name : json)
  (artist_names : list json) (w : world) :
  respond CurrentlyPlaying = Return payload ->
  get_now_playing true w = (Return payload, logged w [CurrentlyPlaying]) /\
  (has_current_item payload title artist_names album_name ->
   get_now_playing false w =
     (Return (JObj [("title", title);
                    ("artists", JList artist_names);
                    ("album_name", album_name)]),
      logged w [CurrentlyPlaying])).
Proof.
  intros Hresp. unfold get_now_playing. split.
  - now rewrite (bind_sp _ _ _ _ Hresp).
  - intros (item & artists & album & Hitem & Hname & Hart & Hnames & Halb & Han).
    rewrite (bind_sp _ _ _ _ Hresp). cbn [negb].
    rewrite (bind_lift _ _ _ _ Hitem), (bind_lift _ _ _ _ Hname).
    rewrite (bind_lift _ _ _ _ Hitem), (bind_lift _ _ _ _ Hart).
    rewrite (bind_lift (iter (JList artists)) _ _ artists eq_refl).
    rewrite (bind_return _ _ _ _ _
               (comprehension_subscr "name" artists artist_names _ Hnames)).
    rewrite (bind_lift _ _ _ _ Hitem), (bind_lift _ _ _ _ Halb).
    now rewrite (bind_lift _ _ _ _ Han).
Qed.

(** C10: when nothing is playing the client answers [None]; the compact
    form then raises [TypeError] on [currently_playing["item"]], while the
    full form hands the [None] back. *)
Theorem now_playing_nothing_playing (w : world) :
  respond CurrentlyPlaying = Return JNull ->
  get_now_playing false w = (Raise TypeError, logged w [CurrentlyPlaying]) /\
  get_now_playing true w = (Return JNull, logged w [CurrentlyPlaying]).
Proof.
  intros Hresp. unfold get_now_playing.
  rewrite !(bind_sp _ _ _ _ Hresp). split; reflexivity.
Qed.

End NowPlaying.

(** ** Draining a paged collection *)

Lemma pages_last n P : n <= P -> 1 <= P -> pages n P = 1.
Proof.
  intros Hn HP. unfold pages. f_equal. apply Nat.div_small. lia.
Qed.

Lemma pages_more n P : P < n -> 1 <= P -> pages n P = S (pages (n - P) P).
Proof.
  intros Hn HP. unfold pages. f_equal.
  replace (n - 1) with ((n - P - 1) + 1 * P) by lia.
  rewrite Nat.div_add by lia. lia.
Qed.

Section Drain.

Context {sp_account : Spotify}.

Lemma drain_from (P : nat) (fetch : nat -> nat -> call) (l : list json) :
  1 <= P -> serves fetch l ->
  forall fuel acc k w,
    pages (List.length l - k * P) P <= fuel ->
    drain fuel P fetch acc (k * P) w =
      (Return (acc ++ skipn (k * P) l),
       logged w (map (fun i => fetch P (i * P))
                     (seq k (pages (List.length l - k * P) P)))).
Proof.
  intros HP Hserves. induction fuel as [|fuel IH]; intros acc k w Hfuel.
  - unfold pages in Hfuel. lia.
  - destruct (Hserves P (k * P)) as (response & next & Hr & Hitems & Hnext & Hend).
    cbn [drain].
    rewrite (bind_sp _ _ _ _ Hr), (bind_lift _ _ _ _ Hitems).
    rewrite (bind_lift (iter (JList _)) _ _ _ eq_refl).
    rewrite (bind_lift _ _ _ _ Hnext).
    destruct (is_none next) eqn:Hnone.
    + assert (Hlen : List.length l <= k * P + P) by now apply Hend.
      rewrite pages_last by lia. cbn [seq map].
      unfold ret. do 3 f_equal.
      apply firstn_all2. rewrite length_skipn. lia.
    + assert (Hlen : k * P + P < List.length l).
      { destruct (Nat.le_gt_cases (List.length l) (k * P + P)) as [Hle|Hgt];
          [|exact Hgt].
        apply Hend in Hle. congruence. }
      rewrite pages_more in Hfuel |- * by lia.
      replace (k * P + P) with (S k * P) by lia.
      replace (List.length l - k * P - P) with (List.length l - S k * P)
        in * by lia.
      rewrite IH by lia. rewrite logged_app. cbn [seq map].
      do 2 f_equal.
      rewrite <- app_assoc. f_equal.
      replace (S k * P) with (P + k * P) by lia.
      rewrite <- skipn_skipn. apply firstn_skipn.
Qed.

Lemma drain_whole (l : list json) (fuel : nat) (w : world) P fetch :
  1 <= P -> serves fetch l -> pages (List.length l) P <= fuel ->
  drain fuel P fetch [] 0 w =
    (Return l, logged w (page_requests fetch P (pages (List.length l) P))).
Proof.
  intros HP Hs Hfuel.
  pose proof (drain_from P fetch l HP Hs fuel [] 0 w) as H.
  cbn [Nat.mul] in H. rewrite Nat.sub_0_r in H.
  rewrite H by exact Hfuel. reflexivity.
Qed.

(** C2: a collection of any length [N >= 0], served in pages, is returned
    whole and in order by the paging loop once the fuel covers its pages;
    the requests sent are those for offsets [0], [P], [2P], ... up to the
    first answer without a "next", so an empty collection costs one request
    and gives the empty list.  This holds for every page size [P >= 1], in
    particular for [get_saved_tracks] (50) and [get_playlist_tracks]
    (100). *)
Theorem paged_drain (l : list json) (fuel : nat) (w : world) :
  (forall P fetch,
      1 <= P -> serves fetch l -> pages (List.length l) P <= fuel ->
      drain fuel P fetch [] 0 w =
        (Return l,
         logged w (page_requests fetch P (pages (List.length l) P)))) /\
  (serves CurrentUserSavedTracks l -> pages (List.length l) 50 <= fuel ->
   get_saved_tracks fuel w =
     (Return l,
      logged w (page_requests CurrentUserSavedTracks 50
                              (pages (List.length l) 50)))) /\
  (forall playlist_id,
      serves (PlaylistItems playlist_id) l ->
      pages (List.length l) 100 <= fuel ->
      get_playlist_tracks fuel playlist_id w =
        (Return l,
         logged w (page_requests (PlaylistItems playlist_id) 100
                                 (pages (List.length l) 100)))) /\
  (forall P fetch, page_requests fetch P (pages 0 P) = [fetch P 0]).
Proof.
  repeat split.
  - intros P fetch. apply drain_whole.
  - intros Hs Hfuel. apply drain_whole; [lia | exact Hs | exact Hfuel].
  - intros pid Hs Hfuel. apply drain_whole; [lia | exact Hs | exact Hfuel].
  - intros P fetch. unfold page_requests, pages. destruct P; reflexivity.
Qed.

End Drain.

(** ** Fetching one playlist *)

Section PlaylistFetch.

Context {sp_account : Spotify}.

(** C7: [get_playlist] asks for the playlist once.  When the page of tracks
    embedded in the answer has no "next", the answer is returned as it is
    and no further request is sent; otherwise the "items" of that page are
    replaced by the drained listing.  When the embedded page is the first
    page of the listing [l] that the client serves, the result carries the
    whole of [l] either way. *)
Theorem get_playlist_complete (playlist_id : json)
  (info page : list (string * json)) (next : json) (fuel : nat) (w : world) :
  respond (Playlist playlist_id) = Return (JObj info) ->
  lookup "tracks" info = Some (JObj page) ->
  lookup "next" page = Some next ->
  (is_none next = true ->
   get_playlist fuel playlist_id w =
     (Return (JObj info), logged w [Playlist playlist_id])) /\
  (forall l,
      is_none next = false ->
      serves (PlaylistItems playlist_id) l ->
      pages (List.length l) 100 <= fuel ->
      get_playlist fuel playlist_id w =
        (Return (JObj (assign "tracks"
                         (JObj (assign "items" (JList l) page)) info)),
         logged w (Playlist playlist_id ::
                   page_requests (PlaylistItems playlist_id) 100
                                 (pages (List.length l) 100)))) /\
  (forall l,
      lookup "items" page = Some (JList (firstn 100 l)) ->
      (is_none next = true <-> List.length l <= 100) ->
      serves (PlaylistItems playlist_id) l ->
      pages (List.length l) 100 <= fuel ->
      exists result w',
        get_playlist fuel playlist_id w = (Return result, w') /\
        obind (subscr result "tracks") (fun p => subscr p "items") =
          Return (JList l)).
Proof.
  intros Hresp Htracks Hnext.
  assert (Hsub : subscr (JObj info) "tracks" = Return (JObj page))
    by (cbn [subscr]; now rewrite Htracks).
  assert (Hsubn : subscr (JObj page) "next" = Return next)
    by (cbn [subscr]; now rewrite Hnext).
  assert (Hsingle : is_none next = true ->
            get_playlist fuel playlist_id w =
              (Return (JObj info), logged w [Playlist playlist_id])).
  { intros Hnone. unfold get_playlist.
    rewrite (bind_sp _ _ _ _ Hresp), (bind_lift _ _ _ _ Hsub).
    rewrite (bind_lift _ _ _ _ Hsubn), Hnone. reflexivity. }
  assert (Hmany : forall l,
            is_none next = false ->
            serves (PlaylistItems playlist_id) l ->
            pages (List.length l) 100 <= fuel ->
            get_playlist fuel playlist_id w =
              (Return (JObj (assign "tracks"
                               (JObj (assign "items" (JList l) page)) info)),
               logged w (Playlist playlist_id ::
                         page_requests (PlaylistItems playlist_id) 100
                                       (pages (List.length l) 100)))).
  { intros l Hnone Hs Hfuel. unfold get_playlist.
    rewrite (bind_sp _ _ _ _ Hresp), (bind_lift _ _ _ _ Hsub).
    rewrite (bind_lift _ _ _ _ Hsubn), Hnone. cbn [negb].
    unfold get_playlist_tracks.
    rewrite (bind_return _ _ _ _ _
               (drain_whole l fuel _ 100 _ (Nat.lt_0_succ _) Hs Hfuel)).
    rewrite (bind_lift _ _ _ _ Hsub). cbn [set_item].
    rewrite (bind_lift (Return _) _ _ _ eq_refl).
    rewrite logged_app. reflexivity. }
  split; [exact Hsingle|]. split; [exact Hmany|].
  intros l Hitems Hend Hs Hfuel. destruct (is_none next) eqn:Hnone.
  - exists (JObj info), (logged w [Playlist playlist_id]).
    split; [now apply Hsingle|].
    rewrite Hsub. cbn [obind subscr]. rewrite Hitems.
    f_equal. f_equal. apply firstn_all2. now apply Hend.
  - eexists _, _. split; [now apply Hmany|].
    cbn [subscr]. rewrite lookup_assign_same. cbn [obind subscr].
    now rewrite lookup_assign_same.
Qed.

End PlaylistFetch.

(** ** The most recent backup time *)

(** Order of strings, as [max] compares them. *)
Lemma leb_refl s : String.leb s s = true.
Proof. destruct (String.leb_total s s); assumption. Qed.

Lemma ltb_leb a b : String.ltb a b = true -> String.leb a b = true.
Proof. unfold String.ltb, String.leb. destruct (String.compare a b); auto. Qed.

Lemma ltb_false_leb a b : String.ltb a b = false -> String.leb b a = true.
Proof.
  unfold String.ltb, String.leb. rewrite (String.compare_antisym b a).
  destruct (String.compare a b); cbn; intros H; auto; discriminate.
Qed.

Lemma leb_trans a b c :
  String.leb a b = true -> String.leb b c = true -> String.leb a c = true.
Proof.
  unfold String.leb.
  destruct (String.compare a b) eqn:Eab; try discriminate;
    destruct (String.compare b c) eqn:Ebc; try discriminate; intros _ _.
  - apply String.compare_eq_iff in Eab. subst b. now rewrite Ebc.
  - apply String.compare_eq_iff in Eab. subst b. now rewrite Ebc.
  - apply String.compare_eq_iff in Ebc. subst c. now rewrite Eab.
  - assert (H : String_as_OT.lt a c)
      by (eapply (@StrictOrder_Transitive _ _ String_as_OT.lt_strorder);
          eassumption).
    change (String.compare a c = Lt) in H. now rewrite H.
Qed.

Lemma max_from_strings best rest :
  max_from (JStr best) (map JStr rest) = Return (JStr (latest_of best rest)).
Proof.
  revert best. induction rest as [|item rest IH]; intros best; cbn.
  - reflexivity.
  - destruct (String.ltb best item); apply IH.
Qed.

Lemma latest_of_spec best rest :
  In (latest_of best rest) (best :: rest) /\
  (forall s, In s (best :: rest) ->
             String.leb s (latest_of best rest) = true).
Proof.
  revert best. induction rest as [|item rest IH]; intros best.
  - cbn. split; [auto|]. intros s [<-|[]]. apply leb_refl.
  - cbn [latest_of fold_left].
    fold (latest_of (if String.ltb best item then item else best) rest).
    destruct (IH (if String.ltb best item then item else best))
      as [Hin Hle].
    split.
    + destruct Hin as [Hin|Hin]; [|right; right; exact Hin].
      rewrite <- Hin. destruct (String.ltb best item); cbn; auto.
    + intros s Hs.
      assert (Hstep : String.leb s (if String.ltb best item
                                    then item else best) = true
                      \/ In s rest).
      { destruct Hs as [Hs|[Hs|Hs]]; [left|left|right; exact Hs]; subst s.
        - destruct (String.ltb best item) eqn:E;
            [now apply ltb_leb | apply leb_refl].
        - destruct (String.ltb best item) eqn:E;
            [apply leb_refl | now apply ltb_false_leb]. }
      destruct Hstep as [Hstep|Hstep].
      * eapply leb_trans; [exact Hstep|]. apply Hle. now left.
      * apply Hle. now right.
Qed.

Section MostRecent.

Context {sp_account : Spotify} {py : Runtime}.

Lemma backup_time_column (docs : list document) w :
  comprehension (fun track => (JObj track).["backup_time"])
                (filter backup_time_exists docs) w =
    (Return (backup_times docs), w).
Proof.
  induction docs as [|doc docs IH]; cbn [filter backup_times flat_map].
  - reflexivity.
  - unfold backup_time_exists at 1.
    destruct (lookup "backup_time" doc) as [v|] eqn:E.
    + cbn [comprehension].
      rewrite (bind_lift (subscr (JObj doc) "backup_time") _ _ v)
        by (cbn [subscr]; now rewrite E).
      rewrite (bind_return _ _ _ _ _ IH). reflexivity.
    + exact IH.
Qed.

(** C3: the resolver looks at the saved_tracks documents that carry a
    "backup_time".  Without any, [max] raises [ValueError] (its argument is
    an empty sequence) and nothing is returned.  Over timestamps [ts] it
    picks the largest in the order of strings and returns it, read back by
    [fromisoformat]. *)
Theorem most_recent_backup_time (w : world) :
  (backup_times (saved_tracks (db w)) = [] ->
   get_most_recent_backup_time w = (Raise ValueError, w)) /\
  (forall ts,
      ts <> [] ->
      backup_times (saved_tracks (db w)) = map JStr ts ->
      exists latest,
        In latest ts /\
        (forall s, In s ts -> String.leb s latest = true) /\
        get_most_recent_backup_time w =
          (match fromisoformat latest with
           | Some t => Return t
           | None => Raise ValueError
           end, w)).
Proof.
  assert (Hscan : forall f : list json -> M datetime,
             bind (search saved_tracks_t backup_time_exists)
                  (fun found =>
                     bind (comprehension
                             (fun track => (JObj track).["backup_time"])
                             found) f) w =
             f (backup_times (saved_tracks (db w))) w).
  { intros f. unfold search, get_db. rewrite bind_assoc.
    unfold bind at 1. rewrite bind_ret. cbn [table].
    now rewrite (bind_return _ _ _ _ _ (backup_time_column _ w)). }
  unfold get_most_recent_backup_time. rewrite Hscan. split.
  - intros ->. reflexivity.
  - intros [|first rest] Hne Hts; [contradiction|]. rewrite Hts.
    exists (latest_of first rest).
    destruct (latest_of_spec first rest) as [Hin Hle].
    split; [exact Hin|]. split; [exact Hle|].
    cbn [map py_max].
    rewrite (bind_lift _ _ _ _ (max_from_strings first rest)).
    destruct (fromisoformat (latest_of first rest)); reflexivity.
Qed.

End MostRecent.

(** ** How the operations touch the world *)

Lemma reads_only_lift {A} (o : outcome A) : reads_only (lift o).
Proof. exists o, []. intros w. now rewrite logged_nil. Qed.

Lemma reads_only_ret {A} (a : A) : reads_only (ret a).
Proof. exact (reads_only_lift (Return a)). Qed.

Lemma reads_only_bind {A B} (m : M A) (f : A -> M B) :
  reads_only m -> (forall a, reads_only (f a)) -> reads_only (bind m f).
Proof.
  intros (o & cs & Hm) Hf. destruct o as [a|e|].
  - destruct (Hf a) as (o' & cs' & Hfa). exists o', (cs ++ cs').
    intros w. rewrite (bind_return _ _ _ _ _ (Hm w)), Hfa.
    now rewrite logged_app.
  - exists (Raise e), cs. intros w. now rewrite (bind_raise _ _ _ _ _ (Hm w)).
  - exists Diverge, cs. intros w. now rewrite (bind_diverge _ _ _ _ (Hm w)).
Qed.

Lemma snd_bind {A B} (m : M A) (f : A -> M B) w :
  snd (bind m f w) =
    match fst (m w) with
    | Return a => snd (f a (snd (m w)))
    | _ => snd (m w)
    end.
Proof. unfold bind. destruct (m w) as [[a|e|] w']; reflexivity. Qed.

Lemma fst_bind {A B} (m : M A) (f : A -> M B) w :
  fst (bind m f w) =
    match fst (m w) with
    | Return a => fst (f a (snd (m w)))
    | Raise e => Raise e
    | Diverge => Diverge
    end.
Proof. unfold bind. destruct (m w) as [[a|e|] w']; reflexivity. Qed.

Lemma preserves_bind_ret (R : world -> world -> Prop) {A B} (a : A)
  (f : A -> M B) :
  preserves R (f a) -> preserves R (bind (ret a) f).
Proof. intros H w. rewrite bind_ret. apply H. Qed.

Section Frames.

Variable R : world -> world -> Prop.
Hypothesis R_refl : forall w, R w w.
Hypothesis R_trans : forall a b c, R a b -> R b c -> R a c.

Lemma preserves_lift {A} (o : outcome A) : preserves R (lift o).
Proof. intros w. apply R_refl. Qed.

Lemma preserves_bind {A B} (m : M A) (f : A -> M B) :
  preserves R m -> (forall a, preserves R (f a)) -> preserves R (bind m f).
Proof.
  intros Hm Hf w. rewrite snd_bind. destruct (fst (m w)); [|apply Hm ..].
  eapply R_trans; [apply Hm | apply Hf].
Qed.

(** After a pure step the continuation may use what the step returned. *)
Lemma preserves_bind_lift {A B} (o : outcome A) (f : A -> M B) :
  (forall a, o = Return a -> preserves R (f a)) ->
  preserves R (bind (lift o) f).
Proof.
  intros Hf w. destruct o as [a|e|]; cbn; [|apply R_refl ..].
  now apply Hf.
Qed.

Lemma preserves_for_each {A S} (body : S -> A -> M S) (l : list A) :
  (forall s x, preserves R (body s x)) ->
  forall s, preserves R (for_each l body s).
Proof.
  intros Hbody. induction l as [|x l IH]; intros s; cbn [for_each].
  - apply (preserves_lift (Return s)).
  - apply preserves_bind; [apply Hbody | exact IH].
Qed.

Hypothesis R_logged : forall w cs, R w (logged w cs).

Lemma preserves_reads_only {A} (m : M A) : reads_only m -> preserves R m.
Proof. intros (o & cs & Hm) w. rewrite Hm. apply R_logged. Qed.

End Frames.

Section ClientOnly.

Context {sp_account : Spotify}.

Lemma reads_only_sp c : reads_only (sp c).
Proof. exists (respond c), [c]. intros w. apply sp_run. Qed.

Lemma reads_only_drain fuel P fetch :
  forall acc offset, reads_only (drain fuel P fetch acc offset).
Proof.
  induction fuel as [|fuel IH]; intros acc offset; cbn [drain].
  - apply reads_only_lift.
  - apply reads_only_bind; [apply reads_only_sp|]. intros response.
    apply reads_only_bind; [apply reads_only_lift|]. intros items.
    apply reads_only_bind; [apply reads_only_lift|]. intros elems.
    apply reads_only_bind; [apply reads_only_lift|]. intros next.
    destruct (is_none next); [apply reads_only_ret | apply IH].
Qed.

Lemma reads_only_get_playlist fuel playlist_id :
  reads_only (get_playlist fuel playlist_id).
Proof.
  unfold get_playlist.
  apply reads_only_bind; [apply reads_only_sp|]. intros info.
  apply reads_only_bind; [apply reads_only_lift|]. intros page.
  apply reads_only_bind; [apply reads_only_lift|]. intros next.
  destruct (negb (is_none next)); [|apply reads_only_ret].
  apply reads_only_bind; [apply reads_only_drain|]. intros tracks.
  apply reads_only_bind; [apply reads_only_lift|]. intros page'.
  apply reads_only_bind; [apply reads_only_lift|]. intros page''.
  apply reads_only_lift.
Qed.

End ClientOnly.

(** ** Backup *)

Lemma appends_to_refl name t w : appends_to name t w w.
Proof.
  split; [|split; reflexivity].
  exists []. split; [now rewrite app_nil_r | constructor].
Qed.

Lemma appends_to_trans name t a b c :
  appends_to name t a b -> appends_to name t b c -> appends_to name t a c.
Proof.
  intros ((d1 & H1 & F1) & O1 & T1) ((d2 & H2 & F2) & O2 & T2).
  split; [|split; congruence].
  exists (d1 ++ d2). split.
  - now rewrite H2, H1, app_assoc.
  - apply Forall_app. now split.
Qed.

Lemma appends_to_logged name t w cs : appends_to name t w (logged w cs).
Proof.
  split; [|split; reflexivity].
  exists []. split; [cbn; now rewrite app_nil_r | constructor].
Qed.

Lemma table_append_same name doc d :
  table (append_doc name doc d) name = table d name ++ [doc].
Proof. destruct name; reflexivity. Qed.

Lemma table_append_other name doc d :
  table (append_doc name doc d) (other name) = table d (other name).
Proof. destruct name; reflexivity. Qed.

Section Backup.

Context {sp_account : Spotify} {py : Runtime}.

Lemma insert_stamped name t kv :
  stamped t kv -> preserves (appends_to name t) (insert name (JObj kv)).
Proof.
  intros Hst w. cbn. split; [|split].
  - exists [kv]. split; [apply table_append_same | now constructor].
  - apply table_append_other.
  - reflexivity.
Qed.

(** Tagging a document and storing it. *)
Lemma stamp_and_insert name t (doc : json) :
  preserves (appends_to name t)
    (bind (lift (set_item doc "backup_time" (JStr t)))
          (fun doc' => insert name doc')).
Proof.
  apply preserves_bind_lift; [apply appends_to_refl|].
  intros doc' Hset. destruct doc as [| | | | |kv]; try discriminate.
  cbn in Hset. injection Hset as <-.
  apply insert_stamped. apply lookup_assign_same.
Qed.

Lemma backup_playlist_appends fuel playlist_id t :
  preserves (appends_to playlists_t t) (backup_playlist fuel playlist_id t).
Proof.
  unfold backup_playlist.
  apply preserves_bind; [apply appends_to_trans| |].
  - apply preserves_reads_only; [apply appends_to_logged|].
    apply reads_only_get_playlist.
  - intros playlist. apply stamp_and_insert.
Qed.

Lemma backup_all_playlists_appends fuel only_mine t :
  preserves (appends_to playlists_t t)
            (backup_all_playlists fuel only_mine (Some t)).
Proof.
  pose proof (appends_to_refl playlists_t t) as Hrefl.
  pose proof (appends_to_trans playlists_t t) as Htrans.
  assert (Hro : forall A (m : M A),
             reads_only m -> preserves (appends_to playlists_t t) m).
  { intros A m. apply preserves_reads_only. apply appends_to_logged. }
  unfold backup_all_playlists. apply preserves_bind_ret.
  apply preserves_bind; [exact Htrans| |].
  { apply Hro. apply reads_only_drain. }
  intros playlists. apply preserves_for_each; [exact Hrefl|exact Htrans|].
  intros [] playlist.
  apply preserves_bind; [exact Htrans| |].
  { apply Hro. destruct only_mine; [|apply reads_only_ret].
    apply reads_only_bind; [apply reads_only_lift|]. intros owner.
    apply reads_only_bind; [apply reads_only_lift|]. intros owner_id.
    apply reads_only_bind; [apply reads_only_sp|]. intros me.
    apply reads_only_bind; [apply reads_only_lift|]. intros my_id.
    apply reads_only_ret. }
  intros [|]; [now apply (preserves_lift _ Hrefl (Return tt))|].
  apply preserves_bind; [exact Htrans | now apply preserves_lift|].
  intros _. apply preserves_bind; [exact Htrans | now apply preserves_lift|].
  intros _. apply preserves_bind; [exact Htrans | now apply preserves_lift|].
  intros playlist_id. apply backup_playlist_appends.
Qed.

Lemma backup_saved_tracks_appends fuel t :
  preserves (appends_to saved_tracks_t t)
            (backup_saved_tracks fuel (Some t)).
Proof.
  pose proof (appends_to_refl saved_tracks_t t) as Hrefl.
  pose proof (appends_to_trans saved_tracks_t t) as Htrans.
  unfold backup_saved_tracks. apply preserves_bind_ret.
  apply preserves_bind; [exact Htrans| |].
  { apply preserves_reads_only; [apply appends_to_logged|].
    apply reads_only_drain. }
  intros tracks. apply preserves_for_each; [exact Hrefl|exact Htrans|].
  intros [] track. apply stamp_and_insert.
Qed.

Lemma backup_run fuel only_mine w :
  backup fuel only_mine w =
    bind (backup_saved_tracks fuel (Some (isoformat (now (ticks w)))))
         (fun _ => backup_all_playlists fuel only_mine
                     (Some (isoformat (now (ticks w)))))
         (tick w).
Proof. reflexivity. Qed.

(** What one run of [backup] does to the store and the clock, whatever its
    outcome. *)
Lemma backup_appends fuel only_mine w :
  exists new_tracks new_playlists,
    saved_tracks (db (snd (backup fuel only_mine w))) =
      saved_tracks (db w) ++ new_tracks /\
    playlists (db (snd (backup fuel only_mine w))) =
      playlists (db w) ++ new_playlists /\
    Forall (stamped (isoformat (now (ticks w)))) new_tracks /\
    Forall (stamped (isoformat (now (ticks w)))) new_playlists /\
    ticks (snd (backup fuel only_mine w)) = S (ticks w).
Proof.
  rewrite backup_run, snd_bind.
  set (t := isoformat (now (ticks w))).
  pose proof (backup_saved_tracks_appends fuel t (tick w)) as H1.
  set (w1 := snd (backup_saved_tracks fuel (Some t) (tick w))) in *.
  destruct H1 as ((d1 & Hs1 & F1) & Ho1 & Ht1).
  cbn [table other tick db ticks] in Hs1, Ho1, Ht1.
  destruct (fst (backup_saved_tracks fuel (Some t) (tick w))).
  - pose proof (backup_all_playlists_appends fuel only_mine t w1) as H2.
    destruct H2 as ((d2 & Hs2 & F2) & Ho2 & Ht2).
    cbn [table other] in Hs2, Ho2.
    exists d1, d2. repeat split; try assumption; congruence.
  - exists d1, []. rewrite app_nil_r. repeat split; auto.
  - exists d1, []. rewrite app_nil_r. repeat split; auto.
Qed.

(** C4: a run of [backup] reads the clock once, at its start, and every
    document it adds to the saved_tracks table or to the playlists table
    carries that one reading as its "backup_time", however the run ends. *)
Theorem backup_single_timestamp (fuel : nat) (only_mine : bool) (w : world) :
  ticks (snd (backup fuel only_mine w)) = S (ticks w) /\
  exists new_tracks new_playlists,
    saved_tracks (db (snd (backup fuel only_mine w))) =
      saved_tracks (db w) ++ new_tracks /\
    playlists (db (snd (backup fuel only_mine w))) =
      playlists (db w) ++ new_playlists /\
    Forall (stamped (isoformat (now (ticks w))))
           (new_tracks ++ new_playlists).
Proof.
  destruct (backup_appends fuel only_mine w)
    as (d1 & d2 & Hs & Hp & F1 & F2 & Ht).
  split; [exact Ht|]. exists d1, d2.
  repeat split; try assumption. apply Forall_app. now split.
Qed.

(** *** A second run over the same account *)

Lemma same_outcome_bind {A} (m : M A) (f f' : A -> M unit) :
  reads_only m -> (forall a, same_outcome (f a) (f' a)) ->
  same_outcome (bind m f) (bind m f').
Proof.
  intros (o & cs & Hm) Hf w w'. rewrite !fst_bind, !Hm. cbn [fst snd].
  destruct o; [apply Hf | reflexivity ..].
Qed.

Lemma same_outcome_seq (m m' : M unit) (f f' : unit -> M unit) :
  same_outcome m m' -> same_outcome (f tt) (f' tt) ->
  same_outcome (bind m f) (bind m' f').
Proof.
  intros Hm Hf w w'. rewrite !fst_bind, (Hm w w').
  destruct (fst (m' w')) as [[]| |]; [apply Hf | reflexivity ..].
Qed.

Lemma same_outcome_for_each {A} (body body' : unit -> A -> M unit) l :
  (forall x, same_outcome (body tt x) (body' tt x)) ->
  same_outcome (for_each l body tt) (for_each l body' tt).
Proof.
  intros Hbody. induction l as [|x l IH]; cbn [for_each].
  - intros w w'. reflexivity.
  - apply same_outcome_seq; [apply Hbody | exact IH].
Qed.

Lemma same_outcome_stamp name (doc : json) t t' :
  same_outcome
    (bind (lift (set_item doc "backup_time" (JStr t)))
          (fun doc' => insert name doc'))
    (bind (lift (set_item doc "backup_time" (JStr t')))
          (fun doc' => insert name doc')).
Proof. intros w w'. destruct doc; reflexivity. Qed.

Lemma same_outcome_backup_saved_tracks fuel t t' :
  same_outcome (backup_saved_tracks fuel (Some t))
               (backup_saved_tracks fuel (Some t')).
Proof.
  unfold backup_saved_tracks. intros w w'. rewrite !bind_ret. revert w w'.
  apply same_outcome_bind; [apply reads_only_drain|]. intros tracks.
  apply same_outcome_for_each. intros track. apply same_outcome_stamp.
Qed.

Lemma same_outcome_backup_all_playlists fuel only_mine t t' :
  same_outcome (backup_all_playlists fuel only_mine (Some t))
               (backup_all_playlists fuel only_mine (Some t')).
Proof.
  unfold backup_all_playlists. intros w w'. rewrite !bind_ret. revert w w'.
  apply same_outcome_bind; [apply reads_only_drain|]. intros playlists.
  apply same_outcome_for_each. intros playlist.
  apply same_outcome_bind.
  { destruct only_mine; [|apply reads_only_ret].
    apply reads_only_bind; [apply reads_only_lift|]. intros owner.
    apply reads_only_bind; [apply reads_only_lift|]. intros owner_id.
    apply reads_only_bind; [apply reads_only_sp|]. intros me.
    apply reads_only_bind; [apply reads_only_lift|]. intros my_id.
    apply reads_only_ret. }
  intros [|]; [intros w w'; reflexivity|].
  apply same_outcome_bind; [apply reads_only_lift|]. intros _.
  apply same_outcome_bind; [apply reads_only_lift|]. intros _.
  apply same_outcome_bind; [apply reads_only_lift|]. intros playlist_id.
  unfold backup_playlist.
  apply same_outcome_bind; [apply reads_only_get_playlist|]. intros info.
  apply same_outcome_stamp.
Qed.

Lemma backup_outcome fuel only_mine w w' :
  fst (backup fuel only_mine w) = fst (backup fuel only_mine w').
Proof.
  rewrite !backup_run.
  apply same_outcome_seq.
  - apply same_outcome_backup_saved_tracks.
  - apply same_outcome_backup_all_playlists.
Qed.

(** The loop of [backup_saved_tracks], when it completes, stored one
    document per track. *)
Lemma stamp_loop_count t (tracks : list json) : forall w,
  fst (for_each tracks
         (fun _ track =>
            track <- lift (set_item track "backup_time" (JStr t)) ;;
            insert saved_tracks_t track) tt w) = Return tt ->
  List.length
    (saved_tracks
       (db (snd (for_each tracks
                   (fun _ track =>
                      track <- lift (set_item track "backup_time" (JStr t)) ;;
                      insert saved_tracks_t track) tt w)))) =
    List.length (saved_tracks (db w)) + List.length tracks.
Proof.
  induction tracks as [|track tracks IH]; intros w; cbn [for_each].
  - cbn. lia.
  - rewrite fst_bind, snd_bind.
    destruct track as [| | | | |kv]; try discriminate.
    cbn [set_item lift bind insert fst snd].
    intros H. rewrite (IH _ H). cbn. rewrite length_app. cbn. lia.
Qed.

(** The number of documents a completed [backup_saved_tracks] stores is
    fixed by the account (and the fuel), not by the time or the store. *)
Lemma backup_saved_tracks_count fuel :
  exists N, forall t w,
    fst (backup_saved_tracks fuel (Some t) w) = Return tt ->
    List.length
      (saved_tracks (db (snd (backup_saved_tracks fuel (Some t) w)))) =
      List.length (saved_tracks (db w)) + N.
Proof.
  destruct (reads_only_drain fuel 50 CurrentUserSavedTracks [] 0)
    as (o & cs & Hdrain).
  exists (match o with Return tracks => List.length tracks | _ => 0 end).
  intros t w. unfold backup_saved_tracks, get_saved_tracks.
  rewrite bind_ret. destruct o as [tracks|e|].
  - rewrite (bind_return _ _ _ _ _ (Hdrain w)).
    intros H. now rewrite (stamp_loop_count t tracks _ H).
  - rewrite (bind_raise _ _ _ _ _ (Hdrain w)). discriminate.
  - rewrite (bind_diverge _ _ _ _ (Hdrain w)). discriminate.
Qed.

Lemma backup_count fuel only_mine :
  exists N, forall w,
    fst (backup fuel only_mine w) = Return tt ->
    List.length (saved_tracks (db (snd (backup fuel only_mine w)))) =
      List.length (saved_tracks (db w)) + N.
Proof.
  destruct (backup_saved_tracks_count fuel) as (N & HN). exists N.
  intros w. rewrite backup_run, fst_bind, snd_bind.
  set (t := isoformat (now (ticks w))).
  pose proof (HN t (tick w)) as Hcount.
  destruct (fst (backup_saved_tracks fuel (Some t) (tick w)))
    as [[]|e|]; try discriminate.
  intros _.
  destruct (backup_all_playlists_appends fuel only_mine t
              (snd (backup_saved_tracks fuel (Some t) (tick w))))
    as (_ & Hsaved & _).
  cbn [table other] in Hsaved. rewrite Hsaved.
  now apply Hcount.
Qed.

(** C8: a run of [backup] leaves every document already in the two tables
    where it was and only adds behind them.  When a run completes, a second
    run over the same account completes too and adds as many saved-track
    documents as the first, the first set under the first run's timestamp
    and the second set under the second's; from an empty table the count
    doubles. *)
Theorem backup_append_only (fuel : nat) (only_mine : bool) (w0 : world) :
  let w1 := snd (backup fuel only_mine w0) in
  let w2 := snd (backup fuel only_mine w1) in
  (exists new_tracks new_playlists,
      saved_tracks (db w1) = saved_tracks (db w0) ++ new_tracks /\
      playlists (db w1) = playlists (db w0) ++ new_playlists) /\
  (fst (backup fuel only_mine w0) = Return tt ->
   fst (backup fuel only_mine w1) = Return tt /\
   exists first second,
     saved_tracks (db w1) = saved_tracks (db w0) ++ first /\
     saved_tracks (db w2) = saved_tracks (db w1) ++ second /\
     List.length second = List.length first /\
     Forall (stamped (isoformat (now (ticks w0)))) first /\
     Forall (stamped (isoformat (now (S (ticks w0))))) second /\
     (saved_tracks (db w0) = [] ->
      List.length (saved_tracks (db w2)) =
        2 * List.length (saved_tracks (db w1)))).
Proof.
  intros w1 w2.
  destruct (backup_appends fuel only_mine w0)
    as (d1 & p1 & Hs1 & Hp1 & F1 & _ & Ht1).
  destruct (backup_appends fuel only_mine w1)
    as (d2 & p2 & Hs2 & _ & F2 & _ & _).
  fold w1 in Hs1, Hp1, Ht1. fold w2 in Hs2. rewrite Ht1 in F2.
  split; [now exists d1, p1|].
  intros Hok1.
  assert (Hok2 : fst (backup fuel only_mine w1) = Return tt)
    by now rewrite (backup_outcome fuel only_mine w1 w0).
  split; [exact Hok2|].
  destruct (backup_count fuel only_mine) as (N & HN).
  pose proof (HN w0 Hok1) as Hn1. pose proof (HN w1 Hok2) as Hn2.
  fold w1 in Hn1. fold w2 in Hn2.
  assert (Hlen1 : List.length d1 = N)
    by (rewrite Hs1, length_app in Hn1; lia).
  assert (Hlen2 : List.length d2 = N)
    by (rewrite Hs2, length_app in Hn2; lia).
  exists d1, d2. repeat split; try assumption; [congruence|].
  intros Hempty. rewrite Hs2, length_app, Hs1, Hempty. cbn. lia.
Qed.

End Backup.

(** ** Sets of track ids *)

Lemma py_eqb_key x y :
  hashable x = true -> hashable y = true ->
  (py_eqb x y = true <-> key x = key y).
Proof.
  destruct x as [|b|n|s|l|kv], y as [|b'|n'|s'|l'|kv'];
    try discriminate; intros _ _; cbn;
    try (split; [discriminate | congruence]);
    try (split; reflexivity).
  - destruct b, b'; cbn; split; congruence.
  - rewrite Z.eqb_eq. split; congruence.
  - rewrite Z.eqb_eq. split; congruence.
  - rewrite Z.eqb_eq. split; congruence.
  - rewrite String.eqb_eq. split; congruence.
Qed.

Lemma set_mem_key x s :
  hashable x = true -> all_hashable s ->
  (set_mem x s = true <-> In (key x) (map key s)).
Proof.
  intros Hx Hs. unfold all_hashable in Hs.
  unfold set_mem. rewrite existsb_exists, in_map_iff.
  split.
  - intros (y & Hy & Heq). exists y. split; [|exact Hy].
    symmetry. apply py_eqb_key; auto.
    rewrite Forall_forall in Hs. auto.
  - intros (y & Heq & Hy). exists y. split; [exact Hy|].
    apply py_eqb_key; auto. rewrite Forall_forall in Hs. auto.
Qed.

Lemma add_all_app s xs ys : add_all s (xs ++ ys) = add_all (add_all s xs) ys.
Proof. apply fold_left_app. Qed.

Lemma add_all_spec xs : forall s,
  all_hashable s -> all_hashable xs -> NoDup (map key s) ->
  all_hashable (add_all s xs) /\
  NoDup (map key (add_all s xs)) /\
  incl (add_all s xs) (s ++ xs) /\
  (forall k, In k (map key (add_all s xs)) <->
             In k (map key s) \/ In k (map key xs)).
Proof.
  unfold all_hashable.
  induction xs as [|x xs IH]; intros s Hs Hxs Hnd.
  - cbn. rewrite app_nil_r.
    split; [exact Hs|]. split; [exact Hnd|]. split; [apply incl_refl|].
    intros k. tauto.
  - inversion Hxs as [|? ? Hx Hxs']; subst.
    cbn [add_all fold_left].
    fold (add_all (if set_mem x s then s else s ++ [x]) xs).
    pose proof (set_mem_key x s Hx Hs) as Hmem.
    destruct (set_mem x s) eqn:E.
    + destruct (IH s Hs Hxs' Hnd) as (H1 & H2 & H3 & H4).
      split; [exact H1|]. split; [exact H2|]. split.
      * intros y Hy. apply H3 in Hy. rewrite in_app_iff in *.
        cbn. tauto.
      * intros k. rewrite H4. cbn. split; [tauto|].
        intros [Hk|[Hk|Hk]]; auto.
        subst k. left. now apply Hmem.
    + assert (Hs' : Forall (fun x => hashable x = true) (s ++ [x]))
        by (apply Forall_app; split; auto).
      assert (Hnd' : NoDup (map key (s ++ [x]))).
      { rewrite map_app. cbn.
        apply NoDup_app; [exact Hnd | repeat constructor; intros [] | ].
        intros k Hk [Hk'|[]]. subst k.
        apply Hmem in Hk. discriminate. }
      destruct (IH (s ++ [x]) Hs' Hxs' Hnd') as (H1 & H2 & H3 & H4).
      split; [exact H1|]. split; [exact H2|]. split.
      * intros y Hy. apply H3 in Hy. rewrite !in_app_iff in *.
        cbn in *. tauto.
      * intros k. rewrite H4, map_app, in_app_iff. cbn. tauto.
Qed.

Lemma set_diff_spec (a b : pyset) :
  all_hashable a -> all_hashable b -> NoDup (map key a) ->
  NoDup (map key (set_diff a b)) /\
  incl (set_diff a b) a /\
  (forall k, In k (map key (set_diff a b)) <->
             In k (map key a) /\ ~ In k (map key b)).
Proof.
  intros Ha Hb Hnd. unfold set_diff. split; [|split].
  all: pose proof Ha as Ha'; unfold all_hashable in Ha'.
  - clear Ha Ha'. induction a as [|x a IH]; cbn; [constructor|].
    inversion Hnd as [|? ? Hx Hnd']; subst.
    destruct (negb (set_mem x b)); cbn; auto.
    constructor; auto. rewrite in_map_iff in *.
    intros (y & Hy & Hin). apply Hx. exists y. split; auto.
    now apply filter_In in Hin.
  - intros x Hx. now apply filter_In in Hx.
  - intros k. rewrite !in_map_iff. split.
    + intros (x & Hk & Hin). apply filter_In in Hin. destruct Hin as [Hin Hf].
      split; [now exists x|]. subst k.
      rewrite Forall_forall in Ha'.
      rewrite <- in_map_iff, <- (set_mem_key x b) by auto.
      now destruct (set_mem x b).
    + intros ((x & Hk & Hin) & Hnot). exists x. split; [exact Hk|].
      apply filter_In. split; [exact Hin|]. subst k.
      rewrite Forall_forall in Ha'.
      rewrite <- in_map_iff, <- (set_mem_key x b) in Hnot by auto.
      now destruct (set_mem x b).
Qed.

(** ** Reconciliation *)

Lemma bind_not_return {A B} (m : M A) (f : A -> M B) w o w' :
  m w = (o, w') -> (forall a, o <> Return a) ->
  exists o', bind m f w = (o', w') /\ (forall b, o' <> Return b).
Proof.
  intros Hm Hno. unfold bind. rewrite Hm. destruct o as [a|e|].
  - now contradiction (Hno a).
  - exists (Raise e). split; [reflexivity | discriminate].
  - exists Diverge. split; [reflexivity | discriminate].
Qed.

Section Reconciliation.

Context {sp_account : Spotify} {py : Runtime}.

Lemma search_run name cond w :
  search name cond w = (Return (filter cond (table (db w) name)), w).
Proof. reflexivity. Qed.

Lemma add_track_ids_run (items ids : list json) : forall s w,
  Forall2 (fun track id => track_id_of track = Return id) items ids ->
  all_hashable ids ->
  for_each items add_track_id s w = (Return (add_all s ids), w).
Proof.
  unfold all_hashable.
  intros s w H. revert s w.
  induction H as [|track id items ids Hid _ IH]; intros s w Hh.
  - reflexivity.
  - inversion Hh as [|? ? Hx Hh']; subst. cbn [for_each].
    unfold track_id_of in Hid.
    destruct (subscr track "track") as [t| |] eqn:Ht; try discriminate.
    cbn [obind] in Hid.
    unfold add_track_id at 1.
    rewrite (bind_assoc _ _ _ w), (bind_lift _ _ _ _ Ht).
    rewrite (bind_assoc _ _ _ w), (bind_lift _ _ _ _ Hid).
    unfold set_add. rewrite Hx.
    rewrite (bind_lift (Return _) _ _ _ eq_refl).
    apply IH. exact Hh'.
Qed.

Lemma saved_ids_run (saved : list document) (ids : list json) s w :
  Forall2 (fun doc id => track_id_of (JObj doc) = Return id) saved ids ->
  all_hashable ids ->
  for_each saved (fun ids track => add_track_id ids (JObj track)) s w =
    (Return (add_all s ids), w).
Proof.
  intros H Hh.
  assert (Hmap : forall (l : list document) s w,
             for_each l (fun ids track => add_track_id ids (JObj track)) s w =
             for_each (map JObj l) add_track_id s w).
  { induction l as [|d l IHl]; intros s' w'; cbn [for_each map].
    - reflexivity.
    - unfold bind. destruct (add_track_id s' (JObj d) w') as [[a|e|] w''];
        auto. }
  rewrite Hmap. apply add_track_ids_run; [|exact Hh].
  clear -H. induction H; cbn; constructor; auto.
Qed.

Lemma playlist_ids_run (pls : list document) (idss : list (list json)) :
  forall s w,
  Forall2 playlist_track_ids_are pls idss ->
  all_hashable (List.concat idss) ->
  for_each pls
    (fun ids playlist =>
       page <- (JObj playlist).["tracks"] ;;
       items <- page.["items"] ;;
       items <- lift (iter items) ;;
       for_each items add_track_id ids) s w =
    (Return (add_all s (List.concat idss)), w).
Proof.
  intros s w H. revert s w.
  induction H as [|doc ids pls idss Hdoc _ IH]; intros s w Hh.
  - reflexivity.
  - cbn [List.concat] in *. unfold all_hashable in Hh.
    apply Forall_app in Hh. destruct Hh as [Hh1 Hh2].
    destruct Hdoc as (page & items & elems & Hp & Hi & He & Hids).
    cbn [for_each].
    rewrite (bind_assoc _ _ _ w), (bind_lift _ _ _ _ Hp).
    rewrite (bind_assoc _ _ _ w), (bind_lift _ _ _ _ Hi).
    rewrite (bind_assoc _ _ _ w), (bind_lift _ _ _ _ He).
    rewrite (bind_return _ _ _ _ _
               (add_track_ids_run elems ids s w Hids Hh1)).
    rewrite add_all_app. apply IH. exact Hh2.
Qed.

Lemma fetch_loop_ok (ids tracks : list json) :
  Forall2 (fun id track => respond (Track id) = Return track) ids tracks ->
  forall uris acc w,
    Forall2 (fun track uri => subscr track "uri" = Return uri) tracks uris ->
    for_each ids fetch_track acc w =
      (Return (fst acc ++ uris, snd acc ++ tracks),
       logged w (map Track ids)).
Proof.
  induction 1 as [|id track ids tracks Hid _ IH]; intros uris acc w Huris.
  - inversion Huris; subst. cbn. rewrite !app_nil_r, logged_nil.
    now destruct acc.
  - inversion Huris as [|? uri ? uris' Huri Huris']; subst.
    cbn [for_each]. unfold fetch_track at 1.
    rewrite (bind_assoc _ _ _ w), (bind_sp _ _ _ _ Hid).
    rewrite (bind_assoc _ _ _ _), (bind_lift _ _ _ _ Huri).
    rewrite bind_ret, (IH uris' _ _ Huris'). cbn [fst snd map].
    rewrite logged_app, <- !app_assoc. reflexivity.
Qed.

Lemma fetch_loop_fail (ids : list json) (id : json) (e : exn) :
  In id ids -> respond (Track id) = Raise e ->
  forall acc w, exists o cs,
    for_each ids fetch_track acc w = (o, logged w cs) /\
    (forall r, o <> Return r) /\
    Forall is_track_lookup cs.
Proof.
  intros Hin Hfail. induction ids as [|x ids IH]; [contradiction|].
  intros acc w. cbn [for_each]. unfold fetch_track at 1.
  rewrite (bind_assoc _ _ _ w).
  assert (Hx : is_track_lookup (Track x)) by now exists x.
  destruct (respond (Track x)) as [track|e'|] eqn:Ex.
  - rewrite (bind_sp _ _ _ _ Ex), (bind_assoc _ _ _ _).
    destruct (subscr track "uri") as [uri|e'|] eqn:Eu.
    + rewrite (bind_lift (Return uri) _ _ _ eq_refl), bind_ret.
      destruct Hin as [->|Hin]; [congruence|].
      destruct (IH Hin (fst acc ++ [uri], snd acc ++ [track])
                   (logged w [Track x])) as (o & cs & Hrun & Ho & Hcs).
      exists o, (Track x :: cs). rewrite Hrun, logged_app.
      repeat split; auto.
    + exists (Raise e'), [Track x].
      repeat split; auto; discriminate.
    + exists Diverge, [Track x].
      repeat split; auto; discriminate.
  - exists (Raise e'), [Track x]. rewrite (bind_sp_raise _ _ _ _ Ex).
    repeat split; auto; discriminate.
  - exists Diverge, [Track x]. unfold bind. rewrite sp_run, Ex.
    repeat split; auto; discriminate.
Qed.

Lemma reconcile_sets w most_recent B idss :
  snapshot w most_recent B idss ->
  make_playlist_with_liked_but_not_playlisted_tracks w =
    fetch_and_create (isoformat most_recent)
                     (difference B (List.concat idss)) w.
Proof.
  intros (Hrecent & HB & HA & HhB & HhA).
  unfold make_playlist_with_liked_but_not_playlisted_tracks.
  rewrite (bind_return _ _ _ _ _ Hrecent). cbv zeta.
  rewrite (bind_return _ _ _ _ _ (search_run _ _ w)).
  rewrite (bind_return _ _ _ _ _ (search_run _ _ w)).
  cbn [table].
  rewrite (bind_return _ _ _ _ _ (playlist_ids_run _ _ [] w HA HhA)).
  rewrite (bind_return _ _ _ _ _ (saved_ids_run _ _ [] w HB HhB)).
  reflexivity.
Qed.

Lemma difference_spec B A :
  all_hashable B -> all_hashable A ->
  NoDup (map key (difference B A)) /\
  incl (difference B A) B /\
  (forall k, In k (map key (difference B A)) <->
             In k (map key B) /\ ~ In k (map key A)).
Proof.
  intros HB HA. unfold difference.
  destruct (add_all_spec B [] (Forall_nil _) HB (NoDup_nil _))
    as (HhB & HnB & HiB & HkB).
  destruct (add_all_spec A [] (Forall_nil _) HA (NoDup_nil _))
    as (HhA & _ & _ & HkA).
  destruct (set_diff_spec _ _ HhB HhA HnB) as (Hnd & Hincl & Hk).
  split; [exact Hnd|]. split.
  - intros x Hx. apply Hincl, HiB in Hx. exact Hx.
  - intros k. rewrite Hk, HkB, HkA. cbn. tauto.
Qed.

(** C1: on the saved-track and playlist documents stored under the most
    recent backup time, with [B] the saved track ids and [A] the ids of all
    track items of these playlists, the ids to add form the set [B - A]:
    ids of [B], each once, exactly those that are no id of [A]; they are
    visited in some order.  When the client answers, the operation returns
    the track records fetched for these ids, one lookup each, and the one
    add-items request carries the "uri" of each of these records. *)
Theorem reconcile_difference (w : world) (most_recent : datetime)
  (B : list json) (idss : list (list json)) (tracks uris : list json)
  (me user playlist playlist_id added : json) :
  let backup_time := isoformat most_recent in
  let A := List.concat idss in
  let D := difference B A in
  let name := ("Liked but not playlisted " ++ backup_time)%string in
  snapshot w most_recent B idss ->
  Forall2 (fun id track => respond (Track id) = Return track)
          (set_order D) tracks ->
  Forall2 (fun track uri => subscr track "uri" = Return uri) tracks uris ->
  respond Me = Return me ->
  subscr me "id" = Return user ->
  respond (UserPlaylistCreate user name) = Return playlist ->
  subscr playlist "id" = Return playlist_id ->
  respond (PlaylistAddItems playlist_id uris) = Return added ->
  (NoDup (map key D) /\
   incl D B /\
   (forall k, In k (map key D) <-> In k (map key B) /\ ~ In k (map key A)) /\
   Permutation (set_order D) D) /\
  make_playlist_with_liked_but_not_playlisted_tracks w =
    (Return tracks,
     logged w (map Track (set_order D) ++
               [Me; UserPlaylistCreate user name;
                PlaylistAddItems playlist_id uris])).
Proof.
  intros backup_time A D name Hsnap Htracks Huris Hme Huser Hcreate Hpid Hadd.
  split.
  - destruct Hsnap as (_ & _ & _ & HhB & HhA).
    destruct (difference_spec B A HhB HhA) as (H1 & H2 & H3).
    split; [exact H1|]. split; [exact H2|]. split; [exact H3|].
    apply set_order_perm.
  - rewrite (reconcile_sets _ _ _ _ Hsnap). unfold fetch_and_create.
    fold A D backup_time name.
    rewrite (bind_return _ _ _ _ _
               (fetch_loop_ok _ _ Htracks uris ([], []) w Huris)).
    cbn [fst snd app].
    rewrite (bind_sp _ _ _ _ Hme), (bind_lift _ _ _ _ Huser).
    rewrite (bind_sp _ _ _ _ Hcreate), (bind_lift _ _ _ _ Hpid).
    rewrite (bind_sp _ _ _ _ Hadd). unfold ret.
    rewrite !logged_app. reflexivity.
Qed.

(** C5: when every saved track id of the snapshot is the id of some
    playlist track of the snapshot, the difference is empty; no track is
    looked up, yet the playlist is created, the add-items request is sent
    with no URI, and the empty list is returned. *)
Theorem reconcile_full_overlap (w : world) (most_recent : datetime)
  (B : list json) (idss : list (list json))
  (me user playlist playlist_id added : json) :
  let backup_time := isoformat most_recent in
  let A := List.concat idss in
  let name := ("Liked but not playlisted " ++ backup_time)%string in
  snapshot w most_recent B idss ->
  (forall k, In k (map key B) -> In k (map key A)) ->
  respond Me = Return me ->
  subscr me "id" = Return user ->
  respond (UserPlaylistCreate user name) = Return playlist ->
  subscr playlist "id" = Return playlist_id ->
  respond (PlaylistAddItems playlist_id []) = Return added ->
  difference B A = [] /\
  make_playlist_with_liked_but_not_playlisted_tracks w =
    (Return [],
     logged w [Me; UserPlaylistCreate user name;
               PlaylistAddItems playlist_id []]).
Proof.
  intros backup_time A name Hsnap Hsub Hme Huser Hcreate Hpid Hadd.
  assert (HD : difference B A = []).
  { destruct Hsnap as (_ & _ & _ & HhB & HhA).
    destruct (difference_spec B A HhB HhA) as (_ & _ & Hk).
    destruct (difference B A) as [|x D]; [reflexivity|].
    destruct (proj1 (Hk (key x)) (or_introl eq_refl)) as [HinB Hnot].
    now contradiction (Hnot (Hsub _ HinB)). }
  split; [exact HD|].
  rewrite (reconcile_sets _ _ _ _ Hsnap). unfold fetch_and_create.
  fold A backup_time name. rewrite HD.
  assert (Hnil : set_order [] = [])
    by (apply Permutation_nil, Permutation_sym, set_order_perm).
  rewrite Hnil. cbn [for_each]. rewrite bind_ret. cbn [fst snd].
  rewrite (bind_sp _ _ _ _ Hme), (bind_lift _ _ _ _ Huser).
  rewrite (bind_sp _ _ _ _ Hcreate), (bind_lift _ _ _ _ Hpid).
  rewrite (bind_sp _ _ _ _ Hadd). unfold ret.
  rewrite !logged_app. reflexivity.
Qed.

(** C6: when the lookup of some id of the difference fails, the operation
    does not return, and all it has asked the client by then are track
    lookups: the playlist was not created and no add-items request was
    sent, since both come after the last lookup. *)
Theorem reconcile_lookup_failure (w : world) (most_recent : datetime)
  (B : list json) (idss : list (list json)) (id : json) (e : exn) :
  snapshot w most_recent B idss ->
  In id (difference B (List.concat idss)) ->
  respond (Track id) = Raise e ->
  exists o cs,
    make_playlist_with_liked_but_not_playlisted_tracks w =
      (o, logged w cs) /\
    (forall r, o <> Return r) /\
    Forall is_track_lookup cs.
Proof.
  intros Hsnap Hin Hfail.
  rewrite (reconcile_sets _ _ _ _ Hsnap). unfold fetch_and_create.
  assert (Hin' : In id (set_order (difference B (List.concat idss))))
    by (eapply Permutation_in; [apply Permutation_sym, set_order_perm|];
        exact Hin).
  destruct (fetch_loop_fail _ id e Hin' Hfail ([], []) w)
    as (o & cs & Hrun & Ho & Hcs).
  destruct (bind_not_return _
              (fun fetched =>
                 me <- sp Me ;;
                 user <- me.["id"] ;;
                 playlist <-
                   sp (UserPlaylistCreate user
                         ("Liked but not playlisted "
                            ++ isoformat most_recent)%string) ;;
                 playlist_id <- playlist.["id"] ;;
                 sp (PlaylistAddItems playlist_id (fst fetched)) ;;;
                 ret (snd fetched))
              _ _ _ Hrun Ho) as (o' & Hrun' & Ho').
  exists o', cs. split; [exact Hrun'|]. split; [exact Ho' | exact Hcs].
Qed.

End Reconciliation.

(** * Further properties *)

(** ** Steps that returned *)

Lemma bind_inv {A B} (m : M A) (f : A -> M B) w b w' :
  bind m f w = (Return b, w') ->
  exists a w1, m w = (Return a, w1) /\ f a w1 = (Return b, w').
Proof.
  unfold bind. destruct (m w) as [[a|e|] w1]; try discriminate.
  intros H. now exists a, w1.
Qed.

Lemma bind_lift_inv {A B} (o : outcome A) (f : A -> M B) w b w' :
  bind (lift o) f w = (Return b, w') ->
  exists a, o = Return a /\ f a w = (Return b, w').
Proof.
  destruct o as [a|e|]; cbn; try discriminate. intros H. now exists a.
Qed.

Lemma comprehension_subscr_inv (k : string) (l vs : list json) w w' :
  comprehension (fun x => x.[k]) l w = (Return vs, w') ->
  Forall2 (fun x v => subscr x k = Return v) l vs /\ w' = w.
Proof.
  revert vs. induction l as [|x l IH]; intros vs; cbn [comprehension].
  - intros H. injection H as <- <-. split; [constructor | reflexivity].
  - intros H. apply bind_lift_inv in H. destruct H as (v & Hv & H).
    apply bind_inv in H. destruct H as (vs' & w1 & Hrest & H).
    injection H as <- <-. destruct (IH _ Hrest) as [Hall ->].
    split; [now constructor | reflexivity].
Qed.

(** ** The paging loop, when the client does not cooperate *)

Section DrainFailures.

Context {sp_account : Spotify}.

(** The loop walks through pages that point to a next page. *)
Lemma drain_through (P : nat) (fetch : nat -> nat -> call) (k : nat) :
  forall j,
    (forall i, j <= i < j + k ->
               exists r, respond (fetch P (i * P)) = Return r /\ has_more r) ->
    forall fuel acc w, exists acc',
      drain (k + fuel) P fetch acc (j * P) w =
        drain fuel P fetch acc' ((j + k) * P)
              (logged w (map (fun i => fetch P (i * P)) (seq j k))).
Proof.
  induction k as [|k IH]; intros j Hpages fuel acc w.
  - exists acc. cbn [seq map Nat.add]. now rewrite logged_nil, Nat.add_0_r.
  - destruct (Hpages j ltac:(lia))
      as (r & Hr & items & elems & next & Hitems & Helems & Hnext & Hmore).
    destruct (IH (S j) ltac:(intros i Hi; apply Hpages; lia) fuel
                 (acc ++ elems) (logged w [fetch P (j * P)]))
      as (acc' & Hrest).
    exists acc'. cbn [Nat.add drain].
    rewrite (bind_sp _ _ _ _ Hr), (bind_lift _ _ _ _ Hitems).
    rewrite (bind_lift _ _ _ _ Helems), (bind_lift _ _ _ _ Hnext), Hmore.
    replace (j * P + P) with (S j * P) by lia.
    rewrite Hrest, logged_app. cbn [seq map].
    now replace (S j + k) with (j + S k) by lia.
Qed.

(** X1: when the request for page [k] fails, after [k] pages that each
    pointed to a next one, the loop raises that exception after [k + 1]
    requests and hands back none of the items collected so far; an answer
    without "next" ends it with [KeyError] in the same way. *)
Theorem drain_aborts_at_failing_page (P : nat) (fetch : nat -> nat -> call)
  (k fuel : nat) (w : world) :
  (forall i, i < k ->
             exists r, respond (fetch P (i * P)) = Return r /\ has_more r) ->
  k < fuel ->
  (forall e,
      respond (fetch P (k * P)) = Raise e ->
      drain fuel P fetch [] 0 w =
        (Raise e, logged w (page_requests fetch P (S k)))) /\
  (forall r items elems,
      respond (fetch P (k * P)) = Return r ->
      subscr r "items" = Return items ->
      iter items = Return elems ->
      subscr r "next" = Raise (KeyError "next") ->
      drain fuel P fetch [] 0 w =
        (Raise (KeyError "next"), logged w (page_requests fetch P (S k)))).
Proof.
  intros Hpages Hfuel.
  assert (Hlog : forall w', logged (logged w' (map (fun i => fetch P (i * P))
                                               (seq 0 k)))
                                   [fetch P (k * P)] =
                            logged w' (page_requests fetch P (S k))).
  { intros w'. rewrite logged_app. unfold page_requests.
    now rewrite seq_S, map_app. }
  destruct fuel as [|fuel]; [lia|].
  replace (S fuel) with (k + S (fuel - k)) by lia.
  destruct (drain_through P fetch k 0
              ltac:(intros i Hi; apply Hpages; lia) (S (fuel - k)) [] w)
    as (acc' & Hthrough).
  cbn [Nat.mul] in Hthrough. rewrite Hthrough. cbn [Nat.add drain].
  split.
  - intros e He. rewrite (bind_sp_raise _ _ _ _ He). now rewrite Hlog.
  - intros r items elems Hr Hitems Helems Hnext.
    rewrite (bind_sp _ _ _ _ Hr), (bind_lift _ _ _ _ Hitems).
    rewrite (bind_lift _ _ _ _ Helems), (bind_lift_raise _ _ _ _ Hnext).
    now rewrite Hlog.
Qed.

(** X2: the loop stops only when an answer has no next page.  Against a
    client whose every answer points to a next page it never returns:
    whatever the fuel, it is used up, one request per unit. *)
Theorem drain_never_ends (P : nat) (fetch : nat -> nat -> call) (w : world) :
  (forall i, exists r, respond (fetch P (i * P)) = Return r /\ has_more r) ->
  forall fuel,
    drain fuel P fetch [] 0 w =
      (Diverge, logged w (page_requests fetch P fuel)).
Proof.
  intros Hpages fuel.
  destruct (drain_through P fetch fuel 0
              ltac:(intros i _; apply Hpages) 0 [] w) as (acc' & Hthrough).
  rewrite Nat.add_0_r in Hthrough. cbn [Nat.mul] in Hthrough.
  rewrite Hthrough. reflexivity.
Qed.

(** X3: [get_all_playlists] returns every playlist of the listing the
    client serves, in order, asking in pages of 50. *)
Theorem get_all_playlists_whole (l : list json) (fuel : nat) (w : world) :
  serves CurrentUserPlaylists l ->
  pages (List.length l) 50 <= fuel ->
  get_all_playlists fuel w =
    (Return l,
     logged w (page_requests CurrentUserPlaylists 50
                             (pages (List.length l) 50))).
Proof.
  intros Hs Hfuel. apply drain_whole; [lia | exact Hs | exact Hfuel].
Qed.

End DrainFailures.

(** ** When the compact playback form exists *)

Section CompactForm.

Context {sp_account : Spotify}.

(** X4: [get_now_playing(full=False)] returns a value exactly when the
    payload has an item with a name, iterable artists that all carry a name,
    and an album with a name; the value is then the dict of these three, and
    the one request is all that happened.  On any other payload it does not
    return. *)
Theorem compact_form_iff (payload r : json) (w w' : world) :
  respond CurrentlyPlaying = Return payload ->
  (get_now_playing false w = (Return r, w') <->
   compact_of payload r /\ w' = logged w [CurrentlyPlaying]).
Proof.
  intros Hresp. unfold get_now_playing.
  rewrite (bind_sp _ _ _ _ Hresp). cbn [negb]. split.
  - intros H.
    apply bind_lift_inv in H. destruct H as (item & Hitem & H).
    apply bind_lift_inv in H. destruct H as (title & Htitle & H).
    apply bind_lift_inv in H. destruct H as (item' & Hitem' & H).
    assert (item' = item) by congruence. subst item'.
    apply bind_lift_inv in H. destruct H as (artists & Hartists & H).
    apply bind_lift_inv in H. destruct H as (elems & Helems & H).
    apply bind_inv in H. destruct H as (names & w1 & Hnames & H).
    apply comprehension_subscr_inv in Hnames. destruct Hnames as [Hnames ->].
    apply bind_lift_inv in H. destruct H as (item' & Hitem'' & H).
    assert (item' = item) by congruence. subst item'.
    apply bind_lift_inv in H. destruct H as (album & Halbum & H).
    apply bind_lift_inv in H. destruct H as (album_name & Han & H).
    injection H as <- <-. split; [|reflexivity].
    exists item, title, artists, elems, names, album, album_name.
    repeat split; assumption.
  - intros [(item & title & artists & elems & names & album & album_name &
             Hitem & Htitle & Hartists & Helems & Hnames & Halbum & Han & ->)
            ->].
    rewrite (bind_lift _ _ _ _ Hitem), (bind_lift _ _ _ _ Htitle).
    rewrite (bind_lift _ _ _ _ Hitem), (bind_lift _ _ _ _ Hartists).
    rewrite (bind_lift _ _ _ _ Helems).
    rewrite (bind_return _ _ _ _ _
               (comprehension_subscr "name" elems names _ Hnames)).
    rewrite (bind_lift _ _ _ _ Hitem), (bind_lift _ _ _ _ Halbum).
    now rewrite (bind_lift _ _ _ _ Han).
Qed.

End CompactForm.

(** ** What a backup stores *)

Lemma stored_nil name w : stored name [] w = w.
Proof.
  destruct w as [[s p] t c], name; unfold stored; cbn;
    now rewrite app_nil_r.
Qed.

Lemma stored_app name d1 d2 w :
  stored name d2 (stored name d1 w) = stored name (d1 ++ d2) w.
Proof. destruct name; unfold stored; cbn; now rewrite app_assoc. Qed.

Lemma stamp_other (t k : string) (record : document) :
  k <> "backup_time" -> lookup k (stamp t record) = lookup k record.
Proof.
  intros Hk. apply lookup_assign_other. now apply String.eqb_neq.
Qed.

Section BackupStores.

Context {sp_account : Spotify} {py : Runtime}.

Lemma insert_run name (kv : document) w :
  insert name (JObj kv) w = (Return tt, stored name [kv] w).
Proof. destruct name; reflexivity. Qed.

Lemma get_playlist_run fuel playlist_id w :
  get_playlist fuel playlist_id w =
    (playlist_detail fuel playlist_id,
     logged w (playlist_requests fuel playlist_id)).
Proof.
  destruct (reads_only_get_playlist fuel playlist_id) as (o & cs & H).
  unfold playlist_detail, playlist_requests. now rewrite (H w), (H blank).
Qed.

Lemma settle_time (backup_time : option string) w :
  match backup_time with
  | None => now_isoformat
  | Some t => ret t
  end w = (Return (time_used backup_time w), time_settled backup_time w).
Proof. destruct backup_time; reflexivity. Qed.

Lemma stamp_loop_run t (records : list document) : forall w,
  for_each (map JObj records)
    (fun _ track =>
       track <- lift (set_item track "backup_time" (JStr t)) ;;
       insert saved_tracks_t track) tt w =
    (Return tt, stored saved_tracks_t (map (stamp t) records) w).
Proof.
  induction records as [|record records IH]; intros w; cbn [map for_each].
  - unfold ret. now rewrite stored_nil.
  - cbn [set_item]. rewrite (bind_assoc _ _ _ w).
    rewrite (bind_lift (Return _) _ _ _ eq_refl).
    rewrite (bind_return _ _ _ _ _ (insert_run _ _ w)).
    rewrite IH. now rewrite (stored_app saved_tracks_t [stamp t record]).
Qed.

Lemma backup_saved_tracks_run (records : list document)
  (backup_time : option string) (fuel : nat) (w : world) :
  serves CurrentUserSavedTracks (map JObj records) ->
  pages (List.length records) 50 <= fuel ->
  backup_saved_tracks fuel backup_time w =
    (Return tt,
     stored saved_tracks_t
       (map (stamp (time_used backup_time w)) records)
       (logged (time_settled backup_time w)
          (page_requests CurrentUserSavedTracks 50
                         (pages (List.length records) 50)))).
Proof.
  intros Hs Hfuel. unfold backup_saved_tracks.
  rewrite (bind_return _ _ _ _ _ (settle_time backup_time w)).
  unfold get_saved_tracks.
  assert (Hfuel' : pages (List.length (map JObj records)) 50 <= fuel)
    by now rewrite length_map.
  rewrite (bind_return _ _ _ _ _
             (drain_whole _ fuel _ 50 _ (Nat.lt_0_succ _) Hs Hfuel')).
  rewrite length_map. apply stamp_loop_run.
Qed.

(** X5: when the client serves the saved tracks [records],
    [backup_saved_tracks] completes and appends to the saved_tracks table,
    in order, each record with "backup_time" set and every other field as it
    came; it touches nothing else in the store.  Given a backup time it does
    not read the clock; given [None] it reads it once and uses that
    reading. *)
Theorem backup_saved_tracks_stores (records : list document)
  (backup_time : option string) (fuel : nat) (w : world) :
  serves CurrentUserSavedTracks (map JObj records) ->
  pages (List.length records) 50 <= fuel ->
  backup_saved_tracks fuel backup_time w =
    (Return tt,
     stored saved_tracks_t
       (map (stamp (time_used backup_time w)) records)
       (logged (time_settled backup_time w)
          (page_requests CurrentUserSavedTracks 50
                         (pages (List.length records) 50)))) /\
  Forall (fun doc => stamped (time_used backup_time w) doc)
         (map (stamp (time_used backup_time w)) records) /\
  (forall record k,
      k <> "backup_time" ->
      lookup k (stamp (time_used backup_time w) record) = lookup k record).
Proof.
  intros Hs Hfuel. split; [|split].
  - now apply backup_saved_tracks_run.
  - apply Forall_forall. intros doc Hdoc. apply in_map_iff in Hdoc.
    destruct Hdoc as (record & <- & _). apply lookup_assign_same.
  - intros record k. apply stamp_other.
Qed.

Lemma playlists_loop_run fuel only_mine my_id me t
  (headers : list json) (docss : list (list document)) :
  (only_mine = true ->
   respond Me = Return me /\ subscr me "id" = Return my_id) ->
  Forall2 (header_stored fuel only_mine my_id) headers docss ->
  forall w, exists cs,
    for_each headers
      (fun _ playlist =>
         skip <- (if only_mine then
                    owner <- playlist.["owner"] ;;
                    owner_id <- owner.["id"] ;;
                    me <- sp Me ;;
                    my_id <- me.["id"] ;;
                    ret (negb (py_eqb owner_id my_id))
                  else ret false) ;;
         if skip then ret tt
         else
           playlist.["name"] ;;;
           playlist.["id"] ;;;
           playlist_id <- playlist.["id"] ;;
           backup_playlist fuel playlist_id t)
      tt w =
      (Return tt,
       stored playlists_t (map (stamp t) (List.concat docss))
              (logged w cs)).
Proof.
  intros Hme Hall. induction Hall as [|h docs headers docss Hh _ IH];
    intros w.
  - exists []. cbn. unfold ret. now rewrite stored_nil, logged_nil.
  - cbn [for_each List.concat]. rewrite map_app.
    assert (Hstep : forall (skip_m : M bool) (b : bool) cs0,
      (forall w0, skip_m w0 = (Return b, logged w0 cs0)) ->
      (b = true -> docs = []) ->
      (b = false ->
       exists name playlist_id info,
         subscr h "name" = Return name /\
         subscr h "id" = Return playlist_id /\
         playlist_detail fuel playlist_id = Return (JObj info) /\
         docs = [info]) ->
      exists cs1,
        bind skip_m
          (fun skip =>
             if skip then ret tt
             else
               h.["name"] ;;;
               h.["id"] ;;;
               playlist_id <- h.["id"] ;;
               backup_playlist fuel playlist_id t) w =
          (Return tt, stored playlists_t (map (stamp t) docs)
                             (logged w cs1))).
    { intros skip_m b cs0 Hskip Htrue Hfalse.
      rewrite (bind_return _ _ _ _ _ (Hskip w)). destruct b.
      - exists cs0. rewrite (Htrue eq_refl). cbn [map].
        unfold ret. now rewrite stored_nil.
      - destruct (Hfalse eq_refl) as (name & pid & info & Hn & Hid & Hd & ->).
        exists (cs0 ++ playlist_requests fuel pid).
        rewrite (bind_lift _ _ _ _ Hn), (bind_lift _ _ _ _ Hid).
        rewrite (bind_lift _ _ _ _ Hid). unfold backup_playlist.
        pose proof (get_playlist_run fuel pid (logged w cs0)) as Hg.
        rewrite Hd in Hg. rewrite (bind_return _ _ _ _ _ Hg).
        cbn [set_item].
        rewrite (bind_lift (Return _) _ _ _ eq_refl).
        rewrite insert_run, logged_app. reflexivity. }
    assert (Hone : exists cs1,
      bind (if only_mine then
              owner <- h.["owner"] ;;
              owner_id <- owner.["id"] ;;
              me <- sp Me ;;
              my_id <- me.["id"] ;;
              ret (negb (py_eqb owner_id my_id))
            else ret false)
        (fun skip =>
           if skip then ret tt
           else
             h.["name"] ;;;
             h.["id"] ;;;
             playlist_id <- h.["id"] ;;
             backup_playlist fuel playlist_id t) w =
        (Return tt, stored playlists_t (map (stamp t) docs)
                           (logged w cs1))).
    { destruct Hh as [(Hom & owner & oid & Ho & Hoid & Hneq & Hdocs)
                     |[Hmine Hkept]].
      - subst only_mine. destruct (Hme eq_refl) as [Hresp Hmy].
        apply (Hstep _ true [Me]); [|auto|discriminate].
        intros w0. rewrite (bind_lift _ _ _ _ Ho), (bind_lift _ _ _ _ Hoid).
        rewrite (bind_sp _ _ _ _ Hresp), (bind_lift _ _ _ _ Hmy).
        unfold ret. now rewrite Hneq.
      - destruct Hmine as [Hom|(owner & oid & Ho & Hoid & Heq)].
        + subst only_mine. apply (Hstep _ false []); [|discriminate|auto].
          intros w0. unfold ret. now rewrite logged_nil.
        + destruct only_mine.
          * destruct (Hme eq_refl) as [Hresp Hmy].
            apply (Hstep _ false [Me]); [|discriminate|auto].
            intros w0.
            rewrite (bind_lift _ _ _ _ Ho), (bind_lift _ _ _ _ Hoid).
            rewrite (bind_sp _ _ _ _ Hresp), (bind_lift _ _ _ _ Hmy).
            unfold ret. now rewrite Heq.
          * apply (Hstep _ false []); [|discriminate|auto].
            intros w0. unfold ret. now rewrite logged_nil. }
    destruct Hone as (cs1 & Hone).
    rewrite (bind_return _ _ _ _ _ Hone).
    destruct (IH (stored playlists_t (map (stamp t) docs) (logged w cs1)))
      as (cs2 & Hrest).
    exists (cs1 ++ cs2). rewrite Hrest.
    change (logged (stored playlists_t (map (stamp t) docs) (logged w cs1))
                   cs2)
      with (stored playlists_t (map (stamp t) docs)
                   (logged (logged w cs1) cs2)).
    now rewrite stored_app, logged_app.
Qed.

Lemma backup_all_playlists_run (headers : list json)
  (docss : list (list document)) (only_mine : bool) (my_id me : json)
  (backup_time : option string) (fuel : nat) (w : world) :
  serves CurrentUserPlaylists headers ->
  pages (List.length headers) 50 <= fuel ->
  (only_mine = true ->
   respond Me = Return me /\ subscr me "id" = Return my_id) ->
  Forall2 (header_stored fuel only_mine my_id) headers docss ->
  exists cs,
    backup_all_playlists fuel only_mine backup_time w =
      (Return tt,
       stored playlists_t
         (map (stamp (time_used backup_time w)) (List.concat docss))
         (logged (time_settled backup_time w) cs)).
Proof.
  intros Hs Hfuel Hme Hall. unfold backup_all_playlists.
  rewrite (bind_return _ _ _ _ _ (settle_time backup_time w)).
  unfold get_all_playlists.
  rewrite (bind_return _ _ _ _ _
             (drain_whole _ fuel _ 50 _ (Nat.lt_0_succ _) Hs Hfuel)).
  destruct (playlists_loop_run fuel only_mine my_id me
              (time_used backup_time w) headers docss Hme Hall
              (logged (time_settled backup_time w)
                 (page_requests CurrentUserPlaylists 50
                    (pages (List.length headers) 50)))) as (cs & Hloop).
  exists (page_requests CurrentUserPlaylists 50
            (pages (List.length headers) 50) ++ cs).
  rewrite Hloop. now rewrite logged_app.
Qed.

(** X6: when the client serves the listing [headers],
    [backup_all_playlists] completes and appends to the playlists table, in
    the order of the listing, the detail of each playlist with
    "backup_time" set; with [only_mine] the playlists whose owner is not the
    current user are left out.  The saved_tracks table is untouched, and the
    clock is read only when no backup time is given. *)
Theorem backup_all_playlists_stores (headers : list json)
  (docss : list (list document)) (only_mine : bool) (my_id me : json)
  (backup_time : option string) (fuel : nat) (w : world) :
  serves CurrentUserPlaylists headers ->
  pages (List.length headers) 50 <= fuel ->
  (only_mine = true ->
   respond Me = Return me /\ subscr me "id" = Return my_id) ->
  Forall2 (header_stored fuel only_mine my_id) headers docss ->
  exists cs,
    backup_all_playlists fuel only_mine backup_time w =
      (Return tt,
       stored playlists_t
         (map (stamp (time_used backup_time w)) (List.concat docss))
         (logged (time_settled backup_time w) cs)).
Proof.
  intros Hs Hfuel Hme Hall.
  now apply (backup_all_playlists_run headers docss only_mine my_id me).
Qed.

(** A whole backup that completes. *)
Lemma backup_stores (records : list document) (headers : list json)
  (docss : list (list document)) (only_mine : bool) (my_id me : json)
  (fuel : nat) (w : world) :
  serves CurrentUserSavedTracks (map JObj records) ->
  pages (List.length records) 50 <= fuel ->
  serves CurrentUserPlaylists headers ->
  pages (List.length headers) 50 <= fuel ->
  (only_mine = true ->
   respond Me = Return me /\ subscr me "id" = Return my_id) ->
  Forall2 (header_stored fuel only_mine my_id) headers docss ->
  exists cs,
    backup fuel only_mine w =
      (Return tt,
       stored playlists_t
         (map (stamp (isoformat (now (ticks w)))) (List.concat docss))
         (stored saved_tracks_t
            (map (stamp (isoformat (now (ticks w)))) records)
            (logged (tick w) cs))).
Proof.
  intros Hs Hfuel Hp Hpfuel Hme Hall. rewrite backup_run.
  set (t := isoformat (now (ticks w))).
  pose proof (backup_saved_tracks_run records (Some t) fuel (tick w)
                Hs Hfuel) as Hsaved.
  rewrite (bind_return _ _ _ _ _ Hsaved).
  cbn [time_used time_settled].
  destruct (backup_all_playlists_run headers docss only_mine my_id me
              (Some t) fuel
              (stored saved_tracks_t (map (stamp t) records)
                 (logged (tick w)
                    (page_requests CurrentUserSavedTracks 50
                       (pages (List.length records) 50))))
              Hp Hpfuel Hme Hall) as (cs & Hpl).
  cbn [time_used time_settled] in Hpl.
  exists (page_requests CurrentUserSavedTracks 50
            (pages (List.length records) 50) ++ cs).
  rewrite Hpl. rewrite <- logged_app. reflexivity.
Qed.

(** X7: a backup is not undone when it fails half way.  When the saved
    tracks were fetched and stored and the first request for the playlists
    then fails, [backup] raises that exception and the saved-track documents
    of this run stay in the store, with no playlist document beside them. *)
Theorem backup_keeps_saved_tracks_when_playlists_fail
  (records : list document) (only_mine : bool) (e : exn) (fuel : nat)
  (w : world) :
  serves CurrentUserSavedTracks (map JObj records) ->
  pages (List.length records) 50 <= fuel ->
  respond (CurrentUserPlaylists 50 0) = Raise e ->
  backup fuel only_mine w =
    (Raise e,
     stored saved_tracks_t
       (map (stamp (isoformat (now (ticks w)))) records)
       (logged (tick w)
          (page_requests CurrentUserSavedTracks 50
                         (pages (List.length records) 50)
           ++ [CurrentUserPlaylists 50 0]))).
Proof.
  intros Hs Hfuel Hfail. rewrite backup_run.
  set (t := isoformat (now (ticks w))).
  pose proof (backup_saved_tracks_run records (Some t) fuel (tick w)
                Hs Hfuel) as Hsaved.
  rewrite (bind_return _ _ _ _ _ Hsaved).
  cbn [time_used time_settled].
  unfold backup_all_playlists. rewrite bind_ret.
  unfold get_all_playlists.
  destruct fuel as [|fuel]; [unfold pages in Hfuel; lia|].
  cbn [drain]. rewrite (bind_assoc _ _ _ _).
  rewrite (bind_sp_raise _ _ _ _ Hfail).
  rewrite <- logged_app. reflexivity.
Qed.

End BackupStores.

(** ** What a backup asks of the account *)

Lemma asked_only_refl P w : asked_only P w w.
Proof. exists []. split; [now rewrite app_nil_r | constructor]. Qed.

Lemma asked_only_trans P a b c :
  asked_only P a b -> asked_only P b c -> asked_only P a c.
Proof.
  intros (c1 & H1 & F1) (c2 & H2 & F2). exists (c1 ++ c2). split.
  - now rewrite H2, H1, app_assoc.
  - apply Forall_app. now split.
Qed.

Section BackupReads.

Context {sp_account : Spotify} {py : Runtime}.

Lemma asked_only_sp (P : call -> Prop) c :
  P c -> preserves (asked_only P) (sp c).
Proof. intros Hc w. exists [c]. split; [reflexivity | now constructor]. Qed.

Lemma asked_only_drain (P : call -> Prop) fuel limit fetch :
  (forall l o, P (fetch l o)) ->
  forall acc offset, preserves (asked_only P) (drain fuel limit fetch acc offset).
Proof.
  intros Hfetch. pose proof (asked_only_refl P) as Hrefl.
  pose proof (asked_only_trans P) as Htrans.
  induction fuel as [|fuel IH]; intros acc offset; cbn [drain].
  - now apply preserves_lift.
  - apply preserves_bind; [exact Htrans | now apply asked_only_sp|].
    intros response.
    apply preserves_bind; [exact Htrans | now apply preserves_lift|].
    intros items.
    apply preserves_bind; [exact Htrans | now apply preserves_lift|].
    intros elems.
    apply preserves_bind; [exact Htrans | now apply preserves_lift|].
    intros next. destruct (is_none next); [|apply IH].
    now apply (preserves_lift _ Hrefl (Return _)).
Qed.

Lemma asked_only_insert (P : call -> Prop) name doc :
  preserves (asked_only P) (insert name doc).
Proof.
  intros w. destruct doc; cbn; try apply asked_only_refl.
  exists []. split; [cbn; now rewrite app_nil_r | constructor].
Qed.

Lemma asked_only_stamp (P : call -> Prop) name (doc : json) t :
  preserves (asked_only P)
    (bind (lift (set_item doc "backup_time" (JStr t)))
          (fun doc' => insert name doc')).
Proof.
  apply preserves_bind;
    [apply asked_only_trans | apply preserves_lift, asked_only_refl|].
  intros doc'. apply asked_only_insert.
Qed.

Lemma asked_only_settle (P : call -> Prop) (backup_time : option string) :
  preserves (asked_only P)
    match backup_time with
    | None => now_isoformat
    | Some t => ret t
    end.
Proof.
  intros w. destruct backup_time; cbn; try apply asked_only_refl.
  exists []. split; [cbn; now rewrite app_nil_r | constructor].
Qed.

Lemma backup_saved_tracks_reads fuel backup_time :
  preserves (asked_only reading) (backup_saved_tracks fuel backup_time).
Proof.
  pose proof (asked_only_refl reading) as Hrefl.
  pose proof (asked_only_trans reading) as Htrans.
  unfold backup_saved_tracks.
  apply preserves_bind; [exact Htrans | apply asked_only_settle|].
  intros t. apply preserves_bind; [exact Htrans| |].
  { apply asked_only_drain. intros l o. exact I. }
  intros tracks. apply preserves_for_each; [exact Hrefl | exact Htrans|].
  intros [] track. apply asked_only_stamp.
Qed.

Lemma get_playlist_reads fuel playlist_id :
  preserves (asked_only reading) (get_playlist fuel playlist_id).
Proof.
  pose proof (asked_only_refl reading) as Hrefl.
  pose proof (asked_only_trans reading) as Htrans.
  unfold get_playlist.
  apply preserves_bind; [exact Htrans | now apply asked_only_sp|].
  intros info.
  apply preserves_bind; [exact Htrans | now apply preserves_lift|].
  intros page.
  apply preserves_bind; [exact Htrans | now apply preserves_lift|].
  intros next. destruct (negb (is_none next)).
  - apply preserves_bind; [exact Htrans| |].
    { apply asked_only_drain. intros l o. exact I. }
    intros tracks.
    apply preserves_bind; [exact Htrans | now apply preserves_lift|].
    intros page'.
    apply preserves_bind; [exact Htrans | now apply preserves_lift|].
    intros page''. now apply preserves_lift.
  - now apply (preserves_lift _ Hrefl (Return _)).
Qed.

Lemma backup_all_playlists_reads fuel only_mine backup_time :
  preserves (asked_only reading)
            (backup_all_playlists fuel only_mine backup_time).
Proof.
  pose proof (asked_only_refl reading) as Hrefl.
  pose proof (asked_only_trans reading) as Htrans.
  unfold backup_all_playlists.
  apply preserves_bind; [exact Htrans | apply asked_only_settle|].
  intros t. apply preserves_bind; [exact Htrans| |].
  { apply asked_only_drain. intros l o. exact I. }
  intros playlists. apply preserves_for_each; [exact Hrefl | exact Htrans|].
  intros [] playlist.
  apply preserves_bind; [exact Htrans| |].
  { destruct only_mine; [|now apply (preserves_lift _ Hrefl (Return _))].
    apply preserves_bind; [exact Htrans | now apply preserves_lift|].
    intros owner.
    apply preserves_bind; [exact Htrans | now apply preserves_lift|].
    intros owner_id.
    apply preserves_bind; [exact Htrans | now apply asked_only_sp|].
    intros me.
    apply preserves_bind; [exact Htrans | now apply preserves_lift|].
    intros my_id. now apply (preserves_lift _ Hrefl (Return _)). }
  intros [|]; [now apply (preserves_lift _ Hrefl (Return tt))|].
  apply preserves_bind; [exact Htrans | now apply preserves_lift|].
  intros _. apply preserves_bind; [exact Htrans | now apply preserves_lift|].
  intros _. apply preserves_bind; [exact Htrans | now apply preserves_lift|].
  intros playlist_id. unfold backup_playlist.
  apply preserves_bind; [exact Htrans | apply get_playlist_reads|].
  intros info. apply asked_only_stamp.
Qed.

(** X8: a backup only reads the account: whatever its outcome, none of its
    requests creates a playlist or adds items to one.  It does not read
    the store or look at the time either: whether it completes, and with
    which exception it fails, is the same from every world. *)
Theorem backup_only_reads (fuel : nat) (only_mine : bool) (w : world) :
  (exists cs,
      calls (snd (backup fuel only_mine w)) = calls w ++ cs /\
      Forall reading cs) /\
  (forall w', fst (backup fuel only_mine w') = fst (backup fuel only_mine w)).
Proof.
  split.
  - rewrite backup_run, snd_bind.
    pose proof (backup_saved_tracks_reads fuel
                  (Some (isoformat (now (ticks w)))) (tick w)) as H1.
    destruct (fst (backup_saved_tracks fuel
                     (Some (isoformat (now (ticks w)))) (tick w)));
      try exact H1.
    eapply (asked_only_trans reading (tick w)); [exact H1|].
    apply backup_all_playlists_reads.
  - intros w'. apply backup_outcome.
Qed.

End BackupReads.

(** ** The resolver and the store *)

Lemma py_gt_string_right x s b : py_gt x (JStr s) = Return b -> is_string x = true.
Proof. destruct x; cbn; try discriminate. reflexivity. Qed.

Lemma py_gt_string_left s y b : py_gt (JStr s) y = Return b -> is_string y = true.
Proof. destruct y; cbn; try discriminate. reflexivity. Qed.

Lemma max_from_not_string rest : forall best v,
  is_string best = false -> max_from best rest = Return v ->
  is_string v = false.
Proof.
  induction rest as [|item rest IH]; intros best v Hbest; cbn [max_from].
  - intros H. now injection H as <-.
  - destruct (py_gt item best) as [gt| |] eqn:Hgt; try discriminate.
    cbn [obind]. apply IH. destruct gt; [|exact Hbest].
    destruct item; try reflexivity.
    apply py_gt_string_left in Hgt. congruence.
Qed.

Lemma max_from_mixed rest : forall best v,
  is_string best = true ->
  (exists x, In x rest /\ is_string x = false) ->
  max_from best rest <> Return v.
Proof.
  induction rest as [|item rest IH]; intros best v Hbest (x & Hin & Hx).
  - contradiction.
  - cbn [max_from].
    destruct (py_gt item best) as [gt| |] eqn:Hgt; try discriminate.
    cbn [obind].
    assert (Hitem : is_string item = true).
    { destruct best; try discriminate.
      now apply py_gt_string_right in Hgt. }
    destruct Hin as [->|Hin]; [congruence|].
    apply IH; [now destruct gt | now exists x].
Qed.

Section Resolver.

Context {sp_account : Spotify} {py : Runtime}.

Lemma resolver_run w :
  get_most_recent_backup_time w =
    (match py_max (backup_times (saved_tracks (db w))) with
     | Return (JStr s) =>
         match fromisoformat s with
         | Some t => Return t
         | None => Raise ValueError
         end
     | Return _ => Raise TypeError
     | Raise e => Raise e
     | Diverge => Diverge
     end, w).
Proof.
  unfold get_most_recent_backup_time.
  rewrite (bind_return _ _ _ _ _ (search_run _ _ w)). cbn [table].
  rewrite (bind_return _ _ _ _ _ (backup_time_column _ w)).
  destruct (py_max (backup_times (saved_tracks (db w)))) as [v|e|];
    [|reflexivity ..].
  rewrite (bind_lift (Return v) _ _ _ eq_refl).
  destruct v; try reflexivity. now destruct (fromisoformat s).
Qed.

(** X9: the resolver only reads, and only the saved_tracks table: it leaves
    the world as it found it whatever its outcome, and gives the same
    outcome in any two worlds with the same saved_tracks table, whatever
    the playlists table holds. *)
Theorem resolver_reads_saved_tracks_only (w : world) :
  snd (get_most_recent_backup_time w) = w /\
  (forall w',
      saved_tracks (db w') = saved_tracks (db w) ->
      fst (get_most_recent_backup_time w') =
        fst (get_most_recent_backup_time w)).
Proof.
  split.
  - now rewrite resolver_run.
  - intros w' Hsame. rewrite !resolver_run. cbn [fst]. now rewrite Hsame.
Qed.

(** X10: one saved_tracks document whose "backup_time" is not a string is
    enough to make the resolver fail: it returns no time. *)
Theorem resolver_rejects_non_string (w : world) (v : json) :
  In v (backup_times (saved_tracks (db w))) ->
  is_string v = false ->
  forall t, fst (get_most_recent_backup_time w) <> Return t.
Proof.
  intros Hin Hv t. rewrite resolver_run. cbn [fst].
  destruct (backup_times (saved_tracks (db w))) as [|first rest];
    [contradiction|].
  cbn [py_max].
  destruct (max_from first rest) as [m| |] eqn:Hmax; try discriminate.
  destruct (is_string first) eqn:Hfirst.
  - exfalso. apply (max_from_mixed rest first m Hfirst); [|exact Hmax].
    destruct Hin as [->|Hin]; [congruence|]. now exists v.
  - apply max_from_not_string in Hmax; [|exact Hfirst].
    destruct m; try discriminate.
Qed.

End Resolver.

(** ** Reconciliation and the store *)

Lemma same_store_refl w : same_store w w.
Proof. now split. Qed.

Lemma same_store_trans a b c :
  same_store a b -> same_store b c -> same_store a c.
Proof. intros [H1 H2] [H3 H4]. split; congruence. Qed.

Lemma same_store_logged w cs : same_store w (logged w cs).
Proof. now split. Qed.

Section ReconcileStore.

Context {sp_account : Spotify} {py : Runtime}.

Lemma add_track_id_same_store ids track :
  preserves same_store (add_track_id ids track).
Proof.
  unfold add_track_id.
  apply preserves_bind;
    [exact same_store_trans | apply preserves_lift, same_store_refl|].
  intros t.
  apply preserves_bind;
    [exact same_store_trans | apply preserves_lift, same_store_refl|].
  intros id. apply preserves_lift, same_store_refl.
Qed.

Lemma reconcile_same_store :
  preserves same_store make_playlist_with_liked_but_not_playlisted_tracks.
Proof.
  pose proof same_store_refl as Hrefl.
  pose proof same_store_trans as Htrans.
  assert (Hsp : forall c, preserves same_store (sp c)).
  { intros c. apply preserves_reads_only;
      [exact same_store_logged | apply reads_only_sp]. }
  assert (Hsearch : forall name cond, preserves same_store (search name cond)).
  { intros name cond w. rewrite search_run. apply Hrefl. }
  unfold make_playlist_with_liked_but_not_playlisted_tracks.
  apply preserves_bind; [exact Htrans| |].
  { intros w. rewrite resolver_run. apply Hrefl. }
  intros most_recent. cbv zeta.
  apply preserves_bind; [exact Htrans | apply Hsearch|]. intros saved.
  apply preserves_bind; [exact Htrans | apply Hsearch|]. intros pls.
  apply preserves_bind; [exact Htrans| |].
  { apply preserves_for_each; [exact Hrefl | exact Htrans|].
    intros ids playlist.
    apply preserves_bind; [exact Htrans | now apply preserves_lift|].
    intros page.
    apply preserves_bind; [exact Htrans | now apply preserves_lift|].
    intros items.
    apply preserves_bind; [exact Htrans | now apply preserves_lift|].
    intros elems. apply preserves_for_each; [exact Hrefl | exact Htrans|].
    intros ids' track. apply add_track_id_same_store. }
  intros playlist_ids.
  apply preserves_bind; [exact Htrans| |].
  { apply preserves_for_each; [exact Hrefl | exact Htrans|].
    intros ids track. apply add_track_id_same_store. }
  intros saved_ids.
  apply preserves_bind; [exact Htrans| |].
  { apply preserves_for_each; [exact Hrefl | exact Htrans|].
    intros acc track_id.
    apply preserves_bind; [exact Htrans | apply Hsp|]. intros track.
    apply preserves_bind; [exact Htrans | now apply preserves_lift|].
    intros uri. now apply (preserves_lift _ Hrefl (Return _)). }
  intros fetched.
  apply preserves_bind; [exact Htrans | apply Hsp|]. intros me.
  apply preserves_bind; [exact Htrans | now apply preserves_lift|].
  intros user.
  apply preserves_bind; [exact Htrans | apply Hsp|]. intros playlist.
  apply preserves_bind; [exact Htrans | now apply preserves_lift|].
  intros playlist_id.
  apply preserves_bind; [exact Htrans | apply Hsp|]. intros added.
  now apply (preserves_lift _ Hrefl (Return _)).
Qed.

(** X11: reconciliation never writes to the store and never reads the
    clock, whatever its outcome.  On a store without a timestamped saved
    track it raises [ValueError] at once: nothing is asked of the client and
    no playlist is created. *)
Theorem reconcile_leaves_store (w : world) :
  same_store w
    (snd (make_playlist_with_liked_but_not_playlisted_tracks w)) /\
  (backup_times (saved_tracks (db w)) = [] ->
   make_playlist_with_liked_but_not_playlisted_tracks w =
     (Raise ValueError, w)).
Proof.
  split; [apply reconcile_same_store|].
  intros Hempty.
  unfold make_playlist_with_liked_but_not_playlisted_tracks.
  pose proof (resolver_run w) as Hrun. rewrite Hempty in Hrun.
  cbn [py_max] in Hrun. now rewrite (bind_raise _ _ _ _ _ Hrun).
Qed.

(** X12: the playlist is created before the tracks are added.  When the
    lookups succeed and creating the playlist fails, no add-items request
    is sent; when the playlist is created and the add-items request fails,
    the operation raises that exception and the new, empty playlist stays
    behind in the account. *)
Theorem reconcile_fails_after_lookups (w : world) (most_recent : datetime)
  (B : list json) (idss : list (list json)) (tracks uris : list json)
  (me user : json) (e : exn) :
  let backup_time := isoformat most_recent in
  let D := difference B (List.concat idss) in
  let name := ("Liked but not playlisted " ++ backup_time)%string in
  snapshot w most_recent B idss ->
  Forall2 (fun id track => respond (Track id) = Return track)
          (set_order D) tracks ->
  Forall2 (fun track uri => subscr track "uri" = Return uri) tracks uris ->
  respond Me = Return me ->
  subscr me "id" = Return user ->
  (respond (UserPlaylistCreate user name) = Raise e ->
   make_playlist_with_liked_but_not_playlisted_tracks w =
     (Raise e,
      logged w (map Track (set_order D) ++
                [Me; UserPlaylistCreate user name]))) /\
  (forall playlist playlist_id,
      respond (UserPlaylistCreate user name) = Return playlist ->
      subscr playlist "id" = Return playlist_id ->
      respond (PlaylistAddItems playlist_id uris) = Raise e ->
      make_playlist_with_liked_but_not_playlisted_tracks w =
        (Raise e,
         logged w (map Track (set_order D) ++
                   [Me; UserPlaylistCreate user name;
                    PlaylistAddItems playlist_id uris]))).
Proof.
  intros backup_time D name Hsnap Htracks Huris Hme Huser.
  rewrite (reconcile_sets _ _ _ _ Hsnap). unfold fetch_and_create.
  fold D backup_time name.
  rewrite (bind_return _ _ _ _ _
             (fetch_loop_ok _ _ Htracks uris ([], []) w Huris)).
  cbn [fst snd app].
  rewrite (bind_sp _ _ _ _ Hme), (bind_lift _ _ _ _ Huser).
  split.
  - intros Hcreate. rewrite (bind_sp_raise _ _ _ _ Hcreate).
    now rewrite !logged_app.
  - intros playlist playlist_id Hcreate Hpid Hadd.
    rewrite (bind_sp _ _ _ _ Hcreate), (bind_lift _ _ _ _ Hpid).
    rewrite (bind_sp_raise _ _ _ _ Hadd). now rewrite !logged_app.
Qed.

End ReconcileStore.

(** ** The command line *)

Section MainProperties.

Context {sp_account : Spotify} {py : Runtime} {os : OS}.

Lemma run_keeps_files {A} (m : M A) (value : A -> json) (p : process) :
  disk (snd (run m value p)) = disk p /\
  printed (snd (run m value p)) = printed p /\
  the_world (snd (run m value p)) = snd (m (the_world p)).
Proof.
  unfold run. destruct (m (the_world p)) as [[a|e|] w]; now cbn.
Qed.

Lemma dispatch_cases (fuel : nat) (command : string) (full : bool) :
  (command = "backup" /\
   dispatch fuel command full =
     Some (run (backup fuel false) (fun _ => JNull))) \/
  (command = "now_playing" /\
   dispatch fuel command full =
     Some (run (get_now_playing full) (fun r => r))) \/
  (command = "compile_unplaylisted" /\
   dispatch fuel command full =
     Some (run make_playlist_with_liked_but_not_playlisted_tracks JList)) \/
  (~ In command AVAILABLE_COMMANDS /\ dispatch fuel command full = None).
Proof.
  unfold dispatch, AVAILABLE_COMMANDS.
  destruct (String.eqb_spec command "backup") as [->|H1]; [now left|].
  destruct (String.eqb_spec command "now_playing") as [->|H2];
    [right; now left|].
  destruct (String.eqb_spec command "compile_unplaylisted") as [->|H3];
    [right; right; now left|].
  right; right; right. split; [|reflexivity].
  cbn. intros [H|[H|[H|[]]]]; congruence.
Qed.

Lemma dispatch_keeps_files fuel command full operation p :
  dispatch fuel command full = Some operation ->
  disk (snd (operation p)) = disk p /\
  printed (snd (operation p)) = printed p.
Proof.
  intros Hd.
  destruct (dispatch_cases fuel command full)
    as [[_ H]|[[_ H]|[[_ H]|[_ H]]]]; rewrite H in Hd;
    try discriminate; injection Hd as <-;
    split; apply run_keeps_files.
Qed.

(** X13: [main] knows exactly the commands of [AVAILABLE_COMMANDS].  For
    any other command it raises [ValueError] before doing anything: no
    request, no clock reading, nothing stored, printed or written. *)
Theorem main_rejects_unknown_commands (fuel : nat) (command : string)
  (json_path : option string) (print full overwrite : bool) (p : process) :
  (In command AVAILABLE_COMMANDS <-> dispatch fuel command full <> None) /\
  (~ In command AVAILABLE_COMMANDS ->
   main fuel command json_path print full overwrite p =
     (Failed (Exn ValueError), p)).
Proof.
  destruct (dispatch_cases fuel command full)
    as [[-> H]|[[-> H]|[[-> H]|[Hout H]]]].
  - split; [|intros Hn; exfalso; apply Hn; cbn; tauto].
    split; [congruence | intros _; cbn; tauto].
  - split; [|intros Hn; exfalso; apply Hn; cbn; tauto].
    split; [congruence | intros _; cbn; tauto].
  - split; [|intros Hn; exfalso; apply Hn; cbn; tauto].
    split; [congruence | intros _; cbn; tauto].
  - split.
    + split; [contradiction | congruence].
    + intros _. unfold main. now rewrite H.
Qed.

(** X14: [main] looks at the output file only after the command has run.
    With an existing file and no permission to overwrite it, a command that
    completes is followed by [FileExistsError]: the file system is left
    alone, but the result has been printed if asked for, and what the
    command did stands: the documents of a backup are in the store, the
    playlist of a reconciliation is in the account. *)
Theorem main_checks_file_after_command (fuel : nat) (command : string)
  (full print : bool) (path : string) (p p1 : process) (result : json)
  (operation : process -> finished json * process) :
  dispatch fuel command full = Some operation ->
  operation p = (Finished result, p1) ->
  is_file path (disk p) = true ->
  main fuel command (Some path) print full false p =
    (Failed (OS_error (FileExistsError path)),
     {| the_world := the_world p1;
        disk := disk p;
        printed := if print then printed p ++ [result] else printed p |}) /\
  (command = "backup" ->
   the_world p1 = snd (backup fuel false (the_world p))) /\
  (command = "compile_unplaylisted" ->
   the_world p1 =
     snd (make_playlist_with_liked_but_not_playlisted_tracks (the_world p))).
Proof.
  intros Hd Hop Hfile.
  destruct (dispatch_keeps_files fuel command full operation p Hd)
    as [Hdisk Hprinted].
  rewrite Hop in Hdisk, Hprinted. cbn [snd] in Hdisk, Hprinted.
  split; [|split].
  - unfold main. rewrite Hd, Hop. unfold report.
    destruct print; cbn [disk the_world printed];
      rewrite Hdisk, Hfile, Hprinted; cbn [negb andb]; try reflexivity.
    destruct p1; cbn in *. now subst.
  - intros ->. cbn in Hd. injection Hd as <-.
    destruct (run_keeps_files (backup fuel false) (fun _ => JNull) p)
      as (_ & _ & Hw). now rewrite Hop in Hw.
  - intros ->. cbn in Hd. injection Hd as <-.
    destruct (run_keeps_files
                make_playlist_with_liked_but_not_playlisted_tracks JList p)
      as (_ & _ & Hw). now rewrite Hop in Hw.
Qed.

(** X15: what [main] hands on.  When the command fails, [main] fails in the
    same way and neither prints nor writes.  When it completes, [main]
    returns its result; asked for a file that does not exist yet, or
    allowed to overwrite, it creates the parent directories and then writes
    [json.dumps] of that same result. *)
Theorem main_reports_result (fuel : nat) (command : string)
  (json_path : option string) (print full overwrite : bool) (p : process)
  (operation : process -> finished json * process) :
  dispatch fuel command full = Some operation ->
  (forall f p1,
      operation p = (Failed f, p1) ->
      main fuel command json_path print full overwrite p = (Failed f, p1) /\
      disk p1 = disk p /\ printed p1 = printed p) /\
  (forall result p1 path d1 d2,
      operation p = (Finished result, p1) ->
      json_path = Some path ->
      is_file path (disk p) = false \/ overwrite = true ->
      mkdir_parents (parent path) (disk p) = (None, d1) ->
      write_text path (dumps result) d1 = (None, d2) ->
      main fuel command json_path print full overwrite p =
        (Finished result,
         {| the_world := the_world p1;
            disk := d2;
            printed := if print then printed p ++ [result]
                       else printed p |})).
Proof.
  intros Hd. split.
  - intros f p1 Hop.
    destruct (dispatch_keeps_files fuel command full operation p Hd)
      as [Hdisk Hprinted].
    rewrite Hop in Hdisk, Hprinted. cbn [snd] in Hdisk, Hprinted.
    split; [|now split]. unfold main. now rewrite Hd, Hop.
  - intros result p1 path d1 d2 Hop -> Hmay Hmk Hwr.
    destruct (dispatch_keeps_files fuel command full operation p Hd)
      as [Hdisk Hprinted].
    rewrite Hop in Hdisk, Hprinted. cbn [snd] in Hdisk, Hprinted.
    unfold main. rewrite Hd, Hop. unfold report.
    assert (Hguard : is_file path (disk p) && negb overwrite = false)
      by (destruct Hmay as [->| ->];
          [reflexivity | now rewrite andb_false_r]).
    destruct print; cbn [disk the_world printed];
      rewrite Hdisk, Hguard, Hmk, Hwr, Hprinted; reflexivity.
Qed.

End MainProperties.

(** ** The first version *)

Section LegacyProperties.

Context {sp_account : Spotify} {os : OS}.

(** X16: the first version asks for the saved tracks in a single request,
    of 1000 items with [full] and of 20 without, and reports the answer as
    it came: of a library [l] at most that many tracks, the first ones, are
    printed, and later ones are not asked for.  Its [main] returns [None],
    and it knows the commands of its own [AVAILABLE_COMMANDS] only. *)
Theorem legacy_saved_tracks_first_page (l : list json) (print full overwrite : bool)
  (p : process) :
  serves CurrentUserSavedTracks l ->
  let limit := if full then 1000 else 20 in
  (exists answer,
      subscr answer "items" = Return (JList (firstn limit l)) /\
      Legacy.main "saved_tracks" None print full overwrite p =
        (Finished JNull,
         {| the_world :=
              logged (the_world p) [CurrentUserSavedTracks limit 0];
            disk := disk p;
            printed := if print then printed p ++ [answer]
                       else printed p |})) /\
  (forall command,
      In command Legacy.AVAILABLE_COMMANDS <->
      Legacy.dispatch command full <> None) /\
  (forall command json_path,
      ~ In command Legacy.AVAILABLE_COMMANDS ->
      Legacy.main command json_path print full overwrite p =
        (Failed (Exn ValueError), p)).
Proof.
  intros Hs limit.
  assert (Hcases : forall command,
    (In command Legacy.AVAILABLE_COMMANDS /\
     Legacy.dispatch command full <> None) \/
    (~ In command Legacy.AVAILABLE_COMMANDS /\
     Legacy.dispatch command full = None)).
  { intros command. unfold Legacy.dispatch, Legacy.AVAILABLE_COMMANDS.
    destruct (String.eqb_spec command "saved_tracks") as [->|H1].
    { left. split; [cbn; tauto | discriminate]. }
    destruct (String.eqb_spec command "now_playing") as [->|H2].
    { left. split; [cbn; tauto | discriminate]. }
    right. split; [|reflexivity]. cbn. intros [H|[H|[]]]; congruence. }
  split; [|split].
  - destruct (Hs limit 0) as (answer & next & Hresp & Hitems & _).
    exists answer. split; [exact Hitems|].
    unfold Legacy.main. cbn [Legacy.dispatch String.eqb Ascii.eqb Bool.eqb].
    fold limit. unfold run, Legacy.get_saved_tracks.
    rewrite sp_run, Hresp. unfold report. destruct print; reflexivity.
  - intros command. destruct (Hcases command) as [[H1 H2]|[H1 H2]].
    + tauto.
    + split; [contradiction | congruence].
  - intros command json_path Hout.
    destruct (Hcases command) as [[H1 H2]|[H1 H2]]; [contradiction|].
    unfold Legacy.main. now rewrite H2.
Qed.

End LegacyProperties.

(** ** A backup followed by a reconciliation *)

Lemma ltb_irrefl t : String.ltb t t = false.
Proof.
  unfold String.ltb. pose proof (String.compare_antisym t t) as H.
  destruct (String.compare t t); try reflexivity; discriminate.
Qed.

Lemma max_from_same t {A} (xs : list A) :
  max_from (JStr t) (map (fun _ => JStr t) xs) = Return (JStr t).
Proof.
  induction xs as [|x xs IH]; cbn; [reflexivity|].
  now rewrite ltb_irrefl.
Qed.

Lemma backup_times_stamped t (records : list document) :
  backup_times (map (stamp t) records) = map (fun _ => JStr t) records.
Proof.
  induction records as [|r records IH]; cbn; [reflexivity|].
  unfold stamp at 1. rewrite lookup_assign_same. cbn. now f_equal.
Qed.

Lemma filter_stamped t (records : list document) :
  filter (backup_time_is t) (map (stamp t) records) = map (stamp t) records.
Proof.
  induction records as [|r records IH]; cbn; [reflexivity|].
  unfold backup_time_is at 1. unfold stamp at 1.
  rewrite lookup_assign_same. cbn [py_eqb]. rewrite String.eqb_refl.
  now f_equal.
Qed.

Lemma track_id_stamped t (record : document) :
  track_id_of (JObj (stamp t record)) = track_id_of (JObj record).
Proof.
  unfold track_id_of. cbn [subscr].
  now rewrite stamp_other by discriminate.
Qed.

Lemma playlist_ids_stamped t (info : document) ids :
  playlist_track_ids_are info ids ->
  playlist_track_ids_are (stamp t info) ids.
Proof.
  intros (page & items & elems & Hp & Hi & He & Hids).
  exists page, items, elems. repeat split; try assumption.
  cbn [subscr] in *. now rewrite stamp_other by discriminate.
Qed.

Section BackupThenReconcile.

Context {sp_account : Spotify} {py : Runtime}.

(** The snapshot found in a store that holds one generation. *)
Lemma snapshot_of_generation (w : world) (t : string) (d : datetime)
  (records infos : list document) (B : list json) (idss : list (list json)) :
  saved_tracks (db w) = map (stamp t) records ->
  playlists (db w) = map (stamp t) infos ->
  records <> [] ->
  fromisoformat t = Some d ->
  isoformat d = t ->
  Forall2 (fun record id => track_id_of (JObj record) = Return id)
          records B ->
  Forall2 playlist_track_ids_are infos idss ->
  all_hashable B -> all_hashable (List.concat idss) ->
  snapshot w d B idss.
Proof.
  intros Hsaved Hpls Hne Hfrom Hiso HB Hidss HhB HhA.
  unfold snapshot. rewrite Hiso, Hsaved, Hpls, !filter_stamped.
  split; [|split; [|split; [|split]]]; try assumption.
  - rewrite resolver_run, Hsaved, backup_times_stamped.
    destruct records as [|r records]; [contradiction|].
    cbn [map py_max]. rewrite max_from_same. now rewrite Hfrom.
  - clear -HB. induction HB; cbn; constructor; auto.
    now rewrite track_id_stamped.
  - clear -Hidss. induction Hidss; cbn; constructor; auto.
    now apply playlist_ids_stamped.
Qed.

(** X17: a backup into an empty store followed by a reconciliation.  When
    the client serves the saved tracks [records] and the playlists, the
    backup stores them and the reconciliation that follows finds them
    under the time of that backup: it looks up the saved track ids found in
    no stored playlist, creates the playlist named after the backup time,
    and adds their URIs. *)
Theorem backup_then_reconcile (w : world) (fuel : nat) (only_mine : bool)
  (records : list document) (headers : list json)
  (docss : list (list document)) (my_id me : json) (d : datetime)
  (B : list json) (idss : list (list json)) (tracks uris : list json)
  (playlist playlist_id added : json) :
  let t := isoformat (now (ticks w)) in
  let w1 := snd (backup fuel only_mine w) in
  let D := difference B (List.concat idss) in
  let name := ("Liked but not playlisted " ++ t)%string in
  saved_tracks (db w) = [] -> playlists (db w) = [] ->
  serves CurrentUserSavedTracks (map JObj records) ->
  pages (List.length records) 50 <= fuel ->
  serves CurrentUserPlaylists headers ->
  pages (List.length headers) 50 <= fuel ->
  respond Me = Return me -> subscr me "id" = Return my_id ->
  Forall2 (header_stored fuel only_mine my_id) headers docss ->
  records <> [] ->
  fromisoformat t = Some d -> isoformat d = t ->
  Forall2 (fun record id => track_id_of (JObj record) = Return id)
          records B ->
  Forall2 playlist_track_ids_are (List.concat docss) idss ->
  all_hashable B -> all_hashable (List.concat idss) ->
  Forall2 (fun id track => respond (Track id) = Return track)
          (set_order D) tracks ->
  Forall2 (fun track uri => subscr track "uri" = Return uri) tracks uris ->
  respond (UserPlaylistCreate my_id name) = Return playlist ->
  subscr playlist "id" = Return playlist_id ->
  respond (PlaylistAddItems playlist_id uris) = Return added ->
  fst (backup fuel only_mine w) = Return tt /\
  (forall k, In k (map key D) <->
             In k (map key B) /\ ~ In k (map key (List.concat idss))) /\
  make_playlist_with_liked_but_not_playlisted_tracks w1 =
    (Return tracks,
     logged w1 (map Track (set_order D) ++
                [Me; UserPlaylistCreate my_id name;
                 PlaylistAddItems playlist_id uris])).
Proof.
  intros t w1 D name Hs0 Hp0 Hserves Hfuel Hpserves Hpfuel Hme Hmy Hall
         Hne Hfrom Hiso HB Hidss HhB HhA Htracks Huris Hcreate Hpid Hadd.
  destruct (backup_stores records headers docss only_mine my_id me fuel w
              Hserves Hfuel Hpserves Hpfuel (fun _ => conj Hme Hmy) Hall)
    as (cs & Hbackup).
  fold t in Hbackup.
  assert (Hw1 : w1 = stored playlists_t (map (stamp t) (List.concat docss))
                       (stored saved_tracks_t (map (stamp t) records)
                          (logged (tick w) cs)))
    by (unfold w1; now rewrite Hbackup).
  split; [now rewrite Hbackup|].
  split; [apply (difference_spec B _ HhB HhA)|].
  assert (Hsnap : snapshot w1 d B idss).
  { apply (snapshot_of_generation w1 t d records (List.concat docss));
      try assumption; rewrite Hw1; cbn.
    - now rewrite Hs0.
    - now rewrite Hp0. }
  rewrite (reconcile_sets _ _ _ _ Hsnap). unfold fetch_and_create.
  rewrite Hiso. fold D name.
  rewrite (bind_return _ _ _ _ _
             (fetch_loop_ok _ _ Htracks uris ([], []) w1 Huris)).
  cbn [fst snd app].
  rewrite (bind_sp _ _ _ _ Hme), (bind_lift _ _ _ _ Hmy).
  rewrite (bind_sp _ _ _ _ Hcreate), (bind_lift _ _ _ _ Hpid).
  rewrite (bind_sp _ _ _ _ Hadd). unfold ret.
  now rewrite !logged_app.
Qed.

(** X18: a backup that stored the saved tracks and then failed on the
    playlists still counts as the most recent one.  After such a backup
    into an empty store the reconciliation finds no playlist under its
    time, so it takes every saved track for unplaylisted: it looks all of
    them up and puts them into the new playlist. *)
Theorem failed_backup_then_reconcile (w : world) (fuel : nat)
  (only_mine : bool) (records : list document) (e : exn) (d : datetime)
  (B tracks uris : list json) (me user playlist playlist_id added : json) :
  let t := isoformat (now (ticks w)) in
  let w1 := snd (backup fuel only_mine w) in
  let D := difference B [] in
  let name := ("Liked but not playlisted " ++ t)%string in
  saved_tracks (db w) = [] -> playlists (db w) = [] ->
  serves CurrentUserSavedTracks (map JObj records) ->
  pages (List.length records) 50 <= fuel ->
  respond (CurrentUserPlaylists 50 0) = Raise e ->
  records <> [] ->
  fromisoformat t = Some d -> isoformat d = t ->
  Forall2 (fun record id => track_id_of (JObj record) = Return id)
          records B ->
  all_hashable B ->
  Forall2 (fun id track => respond (Track id) = Return track)
          (set_order D) tracks ->
  Forall2 (fun track uri => subscr track "uri" = Return uri) tracks uris ->
  respond Me = Return me -> subscr me "id" = Return user ->
  respond (UserPlaylistCreate user name) = Return playlist ->
  subscr playlist "id" = Return playlist_id ->
  respond (PlaylistAddItems playlist_id uris) = Return added ->
  fst (backup fuel only_mine w) = Raise e /\
  (forall k, In k (map key D) <-> In k (map key B)) /\
  make_playlist_with_liked_but_not_playlisted_tracks w1 =
    (Return tracks,
     logged w1 (map Track (set_order D) ++
                [Me; UserPlaylistCreate user name;
                 PlaylistAddItems playlist_id uris])).
Proof.
  intros t w1 D name Hs0 Hp0 Hserves Hfuel Hfail Hne Hfrom Hiso HB HhB
         Htracks Huris Hme Huser Hcreate Hpid Hadd.
  assert (Hbackup :
    backup fuel only_mine w =
      (Raise e,
       stored saved_tracks_t (map (stamp t) records)
         (logged (tick w)
            (page_requests CurrentUserSavedTracks 50
                           (pages (List.length records) 50)
             ++ [CurrentUserPlaylists 50 0])))).
  { rewrite backup_run. fold t.
    pose proof (backup_saved_tracks_run records (Some t) fuel (tick w)
                  Hserves Hfuel) as Hsaved.
    rewrite (bind_return _ _ _ _ _ Hsaved).
    cbn [time_used time_settled].
    unfold backup_all_playlists. rewrite bind_ret.
    unfold get_all_playlists.
    destruct fuel as [|fuel']; [unfold pages in Hfuel; lia|].
    cbn [drain]. rewrite (bind_assoc _ _ _ _).
    rewrite (bind_sp_raise _ _ _ _ Hfail).
    now rewrite <- logged_app. }
  split; [now rewrite Hbackup|].
  split.
  { intros k. unfold D.
    destruct (difference_spec B [] HhB (Forall_nil _)) as (_ & _ & Hk).
    rewrite Hk. cbn. tauto. }
  assert (Hsnap : snapshot w1 d B []).
  { apply (snapshot_of_generation w1 t d records []);
      try assumption; try constructor;
      unfold w1; rewrite Hbackup; cbn.
    - now rewrite Hs0.
    - exact Hp0. }
  rewrite (reconcile_sets _ _ _ _ Hsnap). unfold fetch_and_create.
  rewrite Hiso. cbn [List.concat]. fold D name.
  rewrite (bind_return _ _ _ _ _
             (fetch_loop_ok _ _ Htracks uris ([], []) w1 Huris)).
  cbn [fst snd app].
  rewrite (bind_sp _ _ _ _ Hme), (bind_lift _ _ _ _ Huser).
  rewrite (bind_sp _ _ _ _ Hcreate), (bind_lift _ _ _ _ Hpid).
  rewrite (bind_sp _ _ _ _ Hadd). unfold ret.
  now rewrite !logged_app.
Qed.

(** X19: the resolver looks for timestamps among the saved tracks only.
    After a completed backup, into an empty store, of an account without
    saved tracks the reconciliation raises [ValueError] as if there had been
    no backup, whatever playlists that backup stored. *)
Theorem backup_without_saved_tracks_then_reconcile (w : world) (fuel : nat)
  (only_mine : bool) (headers : list json) (docss : list (list document))
  (my_id me : json) :
  let w1 := snd (backup fuel only_mine w) in
  saved_tracks (db w) = [] ->
  serves CurrentUserSavedTracks [] ->
  1 <= fuel ->
  serves CurrentUserPlaylists headers ->
  pages (List.length headers) 50 <= fuel ->
  (only_mine = true ->
   respond Me = Return me /\ subscr me "id" = Return my_id) ->
  Forall2 (header_stored fuel only_mine my_id) headers docss ->
  fst (backup fuel only_mine w) = Return tt /\
  playlists (db w1) =
    playlists (db w) ++
    map (stamp (isoformat (now (ticks w)))) (List.concat docss) /\
  make_playlist_with_liked_but_not_playlisted_tracks w1 =
    (Raise ValueError, w1).
Proof.
  intros w1 Hs0 Hserves Hfuel Hpserves Hpfuel Hme Hall.
  destruct (backup_stores [] headers docss only_mine my_id me fuel w
              Hserves ltac:(unfold pages; cbn; lia) Hpserves Hpfuel Hme Hall)
    as (cs & Hbackup).
  split; [now rewrite Hbackup|].
  split; [unfold w1; now rewrite Hbackup|].
  unfold make_playlist_with_liked_but_not_playlisted_tracks.
  pose proof (resolver_run w1) as Hrun.
  assert (Hempty : saved_tracks (db w1) = []).
  { unfold w1. rewrite Hbackup. cbn. now rewrite Hs0. }
  rewrite Hempty in Hrun. cbn [backup_times flat_map py_max] in Hrun.
  now rewrite (bind_raise _ _ _ _ _ Hrun).
Qed.

End BackupThenReconcile.

(** * The example account, worked *)

Module ExampleRuns.

Import Example.

Lemma page_answers (l : list json) (limit offset : nat) :
  subscr (page l limit offset) "items" =
    Return (JList (firstn limit (skipn offset l))) /\
  exists next,
    subscr (page l limit offset) "next" = Return next /\
    (is_none next = true <-> List.length l <= offset + limit).
Proof.
  split; [reflexivity|].
  exists (if Nat.leb (List.length l) (offset + limit)
          then JNull else JStr "https://api.spotify.com/v1/next").
  split; [reflexivity|].
  destruct (Nat.leb_spec (List.length l) (offset + limit)); cbn.
  - tauto.
  - split; [discriminate | lia].
Qed.

Lemma serves_liked liked mix playing missing :
  @serves (account liked mix playing missing) CurrentUserSavedTracks
          (map item liked).
Proof.
  intros limit offset.
  destruct (page_answers (map item liked) limit offset)
    as (Hitems & next & Hnext & Hend).
  exists (page (map item liked) limit offset), next. auto.
Qed.

Lemma serves_mix liked mix playing missing playlist_id :
  @serves (account liked mix playing missing) (PlaylistItems playlist_id)
          (map item mix).
Proof.
  intros limit offset.
  destruct (page_answers (map item mix) limit offset)
    as (Hitems & next & Hnext & Hend).
  exists (page (map item mix) limit offset), next. auto.
Qed.

(** Both shapes of the playback while "Song" by A and B plays. *)
Lemma now_playing_song :
  @get_now_playing partly true empty =
    (Return song, logged empty [CurrentlyPlaying]) /\
  @get_now_playing partly false empty =
    (Return (JObj [("title", JStr "Song");
                   ("artists", JList [JStr "A"; JStr "B"]);
                   ("album_name", JStr "Album")]),
     logged empty [CurrentlyPlaying]).
Proof.
  destruct (@now_playing_shapes partly song (JStr "Song") (JStr "Album")
              [JStr "A"; JStr "B"] empty eq_refl) as [Hfull Hcompact].
  split; [exact Hfull|]. apply Hcompact.
  exists (JObj [("name", JStr "Song");
                ("artists",
                 JList [JObj [("name", JStr "A")]; JObj [("name", JStr "B")]]);
                ("album", JObj [("name", JStr "Album")])]),
    [JObj [("name", JStr "A")]; JObj [("name", JStr "B")]],
    (JObj [("name", JStr "Album")]).
  repeat split; try reflexivity. repeat constructor.
Defined.

Lemma now_playing_idle :
  @get_now_playing idle false empty =
    (Raise TypeError, logged empty [CurrentlyPlaying]) /\
  @get_now_playing idle true empty =
    (Return JNull, logged empty [CurrentlyPlaying]).
Proof. exact (@now_playing_nothing_playing idle empty eq_refl). Defined.

(** Four liked tracks in pages of three: two requests. *)
Lemma drain_in_two_pages :
  @drain partly 2 3 CurrentUserSavedTracks [] 0 empty =
    (Return (map item ["1"; "2"; "3"; "4"]),
     logged empty [CurrentUserSavedTracks 3 0; CurrentUserSavedTracks 3 3]) /\
  @get_saved_tracks partly 1 empty =
    (Return (map item ["1"; "2"; "3"; "4"]),
     logged empty [CurrentUserSavedTracks 50 0]).
Proof.
  destruct (@paged_drain partly (map item ["1"; "2"; "3"; "4"]) 2 empty)
    as (Hany & _).
  destruct (@paged_drain partly (map item ["1"; "2"; "3"; "4"]) 1 empty)
    as (_ & Hsaved & _).
  split.
  - apply (Hany 3 CurrentUserSavedTracks); [lia | apply serves_liked|].
    vm_compute. lia.
  - apply Hsaved; [apply serves_liked|]. vm_compute. lia.
Defined.

(** The playlist of 150 tracks comes back whole, after two more pages. *)
Lemma long_playlist_complete :
  exists result w',
    @get_playlist long 2 (JStr "mix") empty = (Return result, w') /\
    obind (subscr result "tracks") (fun p => subscr p "items") =
      Return (JList (map item (map numbered (seq 0 150)))).
Proof.
  destruct (@get_playlist_complete long (JStr "mix")
              (mix_header ++
               [("tracks", page (map item (map numbered (seq 0 150))) 100 0)])
              [("href", JStr "https://api.spotify.com/v1/me");
               ("items",
                JList (firstn 100 (map item (map numbered (seq 0 150)))));
               ("next", JStr "https://api.spotify.com/v1/next")]
              (JStr "https://api.spotify.com/v1/next") 2 empty
              eq_refl eq_refl eq_refl) as (_ & _ & Hwhole).
  apply Hwhole.
  - reflexivity.
  - vm_compute. split; [discriminate | lia].
  - apply serves_mix.
  - vm_compute. lia.
Defined.

(** After a backup in January and one in June the resolver answers June;
    on the empty store it raises. *)
Lemma most_recent_is_june :
  @get_most_recent_backup_time python empty = (Raise ValueError, empty) /\
  exists latest,
    In latest ["2023-01-01T00:00:00"; "2023-06-01T00:00:00"] /\
    (forall s, In s ["2023-01-01T00:00:00"; "2023-06-01T00:00:00"] ->
               String.leb s latest = true) /\
    @get_most_recent_backup_time python
       (snd (@backup covered python 3 false (backed_up covered))) =
      (match @fromisoformat python latest with
       | Some t => Return t
       | None => Raise ValueError
       end,
       snd (@backup covered python 3 false (backed_up covered))).
Proof.
  split.
  - apply (@most_recent_backup_time python empty). reflexivity.
  - destruct (@most_recent_backup_time python
                (snd (@backup covered python 3 false (backed_up covered))))
      as (_ & Hlatest).
    destruct (Hlatest ["2023-01-01T00:00:00"; "2023-01-01T00:00:00";
                       "2023-06-01T00:00:00"; "2023-06-01T00:00:00"])
      as (latest & Hin & Hmax & Hrun).
    + discriminate.
    + vm_compute. reflexivity.
    + exists latest. split; [|split; [|exact Hrun]].
      * cbn in Hin |- *. tauto.
      * intros s Hs. apply Hmax. cbn in Hs |- *. tauto.
Defined.

Example most_recent_computed :
  fst (@get_most_recent_backup_time python
         (snd (@backup covered python 3 false (backed_up covered)))) =
    Return "2023-06-01T00:00:00".
Proof. vm_compute. reflexivity. Qed.

(** Two backups of the four liked tracks: four documents, then eight. *)
Lemma backup_twice :
  fst (@backup partly python 3 false (backed_up partly)) = Return tt /\
  exists first second,
    saved_tracks (db (backed_up partly)) = [] ++ first /\
    saved_tracks
      (db (snd (@backup partly python 3 false (backed_up partly)))) =
      saved_tracks (db (backed_up partly)) ++ second /\
    List.length second = List.length first /\
    Forall (stamped "2023-01-01T00:00:00") first /\
    Forall (stamped "2023-06-01T00:00:00") second /\
    List.length
      (saved_tracks
         (db (snd (@backup partly python 3 false (backed_up partly))))) = 8.
Proof.
  destruct (@backup_append_only partly python 3 false empty)
    as (_ & Htwice).
  destruct Htwice as (Hok & first & second & H1 & H2 & Hlen & F1 & F2 & Hdbl).
  - vm_compute. reflexivity.
  - split; [exact Hok|]. exists first, second.
    split; [exact H1|]. split; [exact H2|]. split; [exact Hlen|].
    split; [exact F1|]. split; [exact F2|].
    exact (Hdbl eq_refl).
Defined.

(** Liked 1, 2, 3, 4 against a playlist of 2 and 4: tracks 3 and 1 are
    looked up and added. *)
Lemma reconcile_partly :
  @make_playlist_with_liked_but_not_playlisted_tracks partly python
     (backed_up partly) =
    (Return [track "3"; track "1"],
     logged (backed_up partly)
       [Track (JStr "3"); Track (JStr "1"); Me;
        UserPlaylistCreate (JStr "me")
          "Liked but not playlisted 2023-01-01T00:00:00";
        PlaylistAddItems (JStr "new")
          [JStr "spotify:track:3"; JStr "spotify:track:1"]]).
Proof.
  refine (proj2 (@reconcile_difference partly python (backed_up partly)
                   "2023-01-01T00:00:00"
                   [JStr "1"; JStr "2"; JStr "3"; JStr "4"]
                   [[JStr "2"; JStr "4"]]
                   [track "3"; track "1"]
                   [JStr "spotify:track:3"; JStr "spotify:track:1"]
                   (JObj [("id", JStr "me")]) (JStr "me")
                   (JObj [("id", JStr "new");
                          ("name",
                           JStr "Liked but not playlisted 2023-01-01T00:00:00")])
                   (JStr "new") (JObj [("snapshot_id", JStr "s1")])
                   _ _ _ eq_refl eq_refl eq_refl eq_refl eq_refl)).
  - split; [vm_compute; reflexivity|].
    split; [vm_compute; repeat constructor|].
    split; [|split; repeat constructor].
    vm_compute. constructor; [|constructor].
    eexists _, _, _. repeat split; try reflexivity. repeat constructor.
  - vm_compute. repeat constructor.
  - repeat constructor.
Defined.

(** Liked 2 and 4, both in the playlist: an empty playlist is created. *)
Lemma reconcile_covered :
  @make_playlist_with_liked_but_not_playlisted_tracks covered python
     (backed_up covered) =
    (Return [],
     logged (backed_up covered)
       [Me;
        UserPlaylistCreate (JStr "me")
          "Liked but not playlisted 2023-01-01T00:00:00";
        PlaylistAddItems (JStr "new") []]).
Proof.
  refine (proj2 (@reconcile_full_overlap covered python (backed_up covered)
                   "2023-01-01T00:00:00"
                   [JStr "2"; JStr "4"] [[JStr "2"; JStr "4"]]
                   (JObj [("id", JStr "me")]) (JStr "me")
                   (JObj [("id", JStr "new");
                          ("name",
                           JStr "Liked but not playlisted 2023-01-01T00:00:00")])
                   (JStr "new") (JObj [("snapshot_id", JStr "s1")])
                   _ _ eq_refl eq_refl eq_refl eq_refl eq_refl)).
  - split; [vm_compute; reflexivity|].
    split; [vm_compute; repeat constructor|].
    split; [|split; repeat constructor].
    vm_compute. constructor; [|constructor].
    eexists _, _, _. repeat split; try reflexivity. repeat constructor.
  - intros k Hk. exact Hk.
Defined.

(** Track 3 cannot be looked up: the run stops there, before any playlist
    is created. *)
Lemma reconcile_faulty :
  exists o cs,
    @make_playlist_with_liked_but_not_playlisted_tracks faulty python
       (backed_up faulty) = (o, logged (backed_up faulty) cs) /\
    (forall r, o <> Return r) /\
    Forall is_track_lookup cs.
Proof.
  apply (@reconcile_lookup_failure faulty python (backed_up faulty)
           "2023-01-01T00:00:00"
           [JStr "1"; JStr "2"; JStr "3"; JStr "4"] [[JStr "2"; JStr "4"]]
           (JStr "3") (SpotifyException 404)).
  - split; [vm_compute; reflexivity|].
    split; [vm_compute; repeat constructor|].
    split; [|split; repeat constructor].
    vm_compute. constructor; [|constructor].
    eexists _, _, _. repeat split; try reflexivity. repeat constructor.
  - vm_compute. tauto.
  - reflexivity.
Defined.

End ExampleRuns.

(** * More of the examples, worked *)

Module FurtherRuns.

Import Example Cases.

Lemma serves_playlists liked mix playing missing :
  @serves (account liked mix playing missing) CurrentUserPlaylists
          [JObj mix_header].
Proof.
  intros limit offset.
  destruct (ExampleRuns.page_answers [JObj mix_header] limit offset)
    as (Hitems & next & Hnext & Hend).
  exists (page [JObj mix_header] limit offset), next. auto.
Qed.

Lemma serves_override (base : Spotify) f fetch l :
  (forall limit offset, f (fetch limit offset) = None) ->
  @serves base fetch l -> @serves (override base f) fetch l.
Proof.
  intros Hf Hs limit offset.
  destruct (Hs limit offset) as (r & next & Hr & H).
  exists r, next. split; [|exact H]. cbn. now rewrite Hf.
Qed.

(** Sixty liked tracks, the second page refused. *)
Lemma throttled_drain :
  @get_saved_tracks throttled 2 empty =
    (Raise (SpotifyException 429),
     logged empty [CurrentUserSavedTracks 50 0;
                   CurrentUserSavedTracks 50 50]).
Proof.
  refine (proj1 (@drain_aborts_at_failing_page throttled 50
                   CurrentUserSavedTracks 1 2 empty _ _)
                (SpotifyException 429) eq_refl).
  - intros i Hi. assert (i = 0) by lia. subst i.
    eexists. split; [reflexivity|].
    eexists _, _, _. repeat split; reflexivity.
  - lia.
Defined.

(** Three units of fuel, three requests, no end. *)
Lemma endless_drain :
  @get_saved_tracks endless 3 empty =
    (Diverge,
     logged empty [CurrentUserSavedTracks 50 0;
                   CurrentUserSavedTracks 50 50;
                   CurrentUserSavedTracks 50 100]).
Proof.
  refine (@drain_never_ends endless 50 CurrentUserSavedTracks empty _ 3).
  intros i. eexists. split; [reflexivity|].
  eexists _, _, _. repeat split; reflexivity.
Defined.

Lemma one_playlist_listed :
  @get_all_playlists partly 1 empty =
    (Return [JObj mix_header], logged empty [CurrentUserPlaylists 50 0]).
Proof.
  apply (@get_all_playlists_whole partly [JObj mix_header] 1 empty).
  - apply serves_playlists.
  - vm_compute. lia.
Defined.

(** The compact form of "Song", obtained from the characterisation. *)
Lemma song_compact :
  @get_now_playing partly false empty =
    (Return (JObj [("title", JStr "Song");
                   ("artists", JList [JStr "A"; JStr "B"]);
                   ("album_name", JStr "Album")]),
     logged empty [CurrentlyPlaying]).
Proof.
  apply (@compact_form_iff partly song _ empty _ eq_refl).
  split; [|reflexivity].
  eexists _, _, _, _, _, _, _.
  repeat split; try reflexivity. repeat constructor.
Defined.

(** The four liked tracks stored by [backup_saved_tracks] on its own: it
    reads the clock itself. *)
Lemma saved_tracks_stored :
  @backup_saved_tracks partly python 1 None empty =
    (Return tt,
     stored saved_tracks_t
       (map (stamp "2023-01-01T00:00:00")
            (map item_doc ["1"; "2"; "3"; "4"]))
       (logged (tick empty) [CurrentUserSavedTracks 50 0])).
Proof.
  refine (proj1 (@backup_saved_tracks_stores partly python
                   (map item_doc ["1"; "2"; "3"; "4"]) None 1 empty _ _)).
  - apply (ExampleRuns.serves_liked ["1"; "2"; "3"; "4"]).
  - vm_compute. lia.
Defined.

(** The playlist "mix" belongs to the user and is stored with
    [only_mine]. *)
Lemma own_playlist_stored :
  exists cs,
    @backup_all_playlists partly python 2 true (Some "2023-06-01T00:00:00")
       empty =
      (Return tt,
       stored playlists_t
         [stamp "2023-06-01T00:00:00" (mix_detail ["2"; "4"])]
         (logged empty cs)).
Proof.
  refine (@backup_all_playlists_stores partly python [JObj mix_header]
            [[mix_detail ["2"; "4"]]] true (JStr "me")
            (JObj [("id", JStr "me")]) (Some "2023-06-01T00:00:00") 2 empty
            _ _ _ _).
  - apply serves_playlists.
  - vm_compute. lia.
  - intros _. split; reflexivity.
  - constructor; [|constructor]. right. split.
    + right. exists (JObj [("id", JStr "me")]), (JStr "me").
      repeat split; reflexivity.
    + exists (JStr "Mix"), (JStr "mix"), (mix_detail ["2"; "4"]).
      repeat split; reflexivity.
Defined.

(** The playlists cannot be listed: the four saved tracks stay stored. *)
Lemma unlisted_backup :
  @backup unlisted python 1 false empty =
    (Raise (SpotifyException 503),
     stored saved_tracks_t
       (map (stamp "2023-01-01T00:00:00")
            (map item_doc ["1"; "2"; "3"; "4"]))
       (logged (tick empty)
          [CurrentUserSavedTracks 50 0; CurrentUserPlaylists 50 0])).
Proof.
  refine (@backup_keeps_saved_tracks_when_playlists_fail unlisted python
            (map item_doc ["1"; "2"; "3"; "4"]) false (SpotifyException 503)
            1 empty _ _ eq_refl).
  - apply serves_override; [reflexivity|].
    apply (ExampleRuns.serves_liked ["1"; "2"; "3"; "4"]).
  - vm_compute. lia.
Defined.

(** A number among the backup times. *)
Lemma odd_store_rejected :
  In (JNum 20230601) (backup_times (saved_tracks (db odd_store))) /\
  (forall t,
      fst (@get_most_recent_backup_time python odd_store) <> Return t).
Proof.
  assert (Hin : In (JNum 20230601)
                   (backup_times (saved_tracks (db odd_store))))
    by (cbn; tauto).
  split; [exact Hin|].
  exact (@resolver_rejects_non_string python odd_store (JNum 20230601)
           Hin eq_refl).
Defined.

Lemma snapshot_of_partly (acc : Spotify) :
  backed_up acc = backed_up partly ->
  @snapshot python (backed_up acc) "2023-01-01T00:00:00"
            [JStr "1"; JStr "2"; JStr "3"; JStr "4"] [[JStr "2"; JStr "4"]].
Proof.
  intros ->.
  split; [vm_compute; reflexivity|].
  split; [vm_compute; repeat constructor|].
  split; [|split; repeat constructor].
  vm_compute. constructor; [|constructor].
  eexists _, _, _. repeat split; try reflexivity. repeat constructor.
Qed.

(** The account refuses the added items: the playlist "new" was created
    all the same. *)
Lemma locked_reconcile :
  @make_playlist_with_liked_but_not_playlisted_tracks locked python
     (backed_up locked) =
    (Raise (SpotifyException 403),
     logged (backed_up locked)
       [Track (JStr "3"); Track (JStr "1"); Me;
        UserPlaylistCreate (JStr "me")
          "Liked but not playlisted 2023-01-01T00:00:00";
        PlaylistAddItems (JStr "new")
          [JStr "spotify:track:3"; JStr "spotify:track:1"]]).
Proof.
  refine (proj2 (@reconcile_fails_after_lookups locked python
                   (backed_up locked) "2023-01-01T00:00:00"
                   [JStr "1"; JStr "2"; JStr "3"; JStr "4"]
                   [[JStr "2"; JStr "4"]]
                   [track "3"; track "1"]
                   [JStr "spotify:track:3"; JStr "spotify:track:1"]
                   (JObj [("id", JStr "me")]) (JStr "me")
                   (SpotifyException 403) _ _ _ eq_refl eq_refl)
                (JObj [("id", JStr "new");
                       ("name",
                        JStr "Liked but not playlisted 2023-01-01T00:00:00")])
                (JStr "new") eq_refl eq_refl eq_refl).
  - apply snapshot_of_partly. vm_compute. reflexivity.
  - vm_compute. repeat constructor.
  - repeat constructor.
Defined.

(** The file exists: the backup is in the store, the file is as it was. *)
Lemma backup_then_file_exists :
  @main partly python table_fs 3 "backup" (Some "out/liked.json")
        true true false started =
    (Failed (OS_error (FileExistsError "out/liked.json")),
     @Build_process table_fs (backed_up partly) (disk started) [JNull]).
Proof.
  refine (proj1 (@main_checks_file_after_command partly python table_fs 3
                   "backup" true true "out/liked.json" started
                   (@Build_process table_fs (backed_up partly)
                      (disk started) [])
                   JNull _ eq_refl _ _)).
  - vm_compute. reflexivity.
  - reflexivity.
Defined.

(** The compact playback written to a new file. *)
Lemma now_playing_written :
  @main partly python table_fs 0 "now_playing" (Some "out/playing.json")
        false false false started =
    (Finished (JObj [("title", JStr "Song");
                     ("artists", JList [JStr "A"; JStr "B"]);
                     ("album_name", JStr "Album")]),
     @Build_process table_fs
       (logged empty [CurrentlyPlaying])
       {| directories := ["out"; "out"];
          texts :=
            [("out/playing.json",
              render (JObj [("title", JStr "Song");
                            ("artists", JList [JStr "A"; JStr "B"]);
                            ("album_name", JStr "Album")]));
             ("out/liked.json", "[]")] |}
       []).
Proof.
  refine (proj2 (@main_reports_result partly python table_fs 0
                   "now_playing" (Some "out/playing.json")
                   false false false started _ eq_refl)
                _ (@Build_process table_fs (logged empty [CurrentlyPlaying])
                     (disk started) [])
                "out/playing.json" _ _ _ eq_refl _ _ _).
  - vm_compute. reflexivity.
  - left. reflexivity.
  - vm_compute. reflexivity.
  - vm_compute. reflexivity.
Defined.

(** The first version, short form: one request for twenty tracks. *)
Lemma legacy_short_listing :
  exists answer,
    subscr answer "items" =
      Return (JList (map item ["1"; "2"; "3"; "4"])) /\
    @Legacy.main partly table_fs "saved_tracks" None true false false
       started =
      (Finished JNull,
       @Build_process table_fs
         (logged empty [CurrentUserSavedTracks 20 0])
         (disk started) [answer]).
Proof.
  exact (proj1 (@legacy_saved_tracks_first_page partly table_fs
                  (map item ["1"; "2"; "3"; "4"]) true false false started
                  (ExampleRuns.serves_liked ["1"; "2"; "3"; "4"] _ _ _))).
Defined.

Lemma mix_listed fuel only_mine :
  1 <= fuel ->
  Forall2 (@header_stored partly fuel only_mine (JStr "me"))
          [JObj mix_header] [[mix_detail ["2"; "4"]]].
Proof.
  intros Hfuel. constructor; [|constructor]. right. split.
  - destruct only_mine; [right|now left].
    exists (JObj [("id", JStr "me")]), (JStr "me").
    repeat split; reflexivity.
  - exists (JStr "Mix"), (JStr "mix"), (mix_detail ["2"; "4"]).
    repeat split; reflexivity.
Qed.

(** Backup, then reconciliation, from the empty store: tracks 3 and 1. *)
Lemma backup_then_reconcile_partly :
  fst (@backup partly python 3 false empty) = Return tt /\
  @make_playlist_with_liked_but_not_playlisted_tracks partly python
     (snd (@backup partly python 3 false empty)) =
    (Return [track "3"; track "1"],
     logged (snd (@backup partly python 3 false empty))
       [Track (JStr "3"); Track (JStr "1"); Me;
        UserPlaylistCreate (JStr "me")
          "Liked but not playlisted 2023-01-01T00:00:00";
        PlaylistAddItems (JStr "new")
          [JStr "spotify:track:3"; JStr "spotify:track:1"]]).
Proof.
  destruct (@backup_then_reconcile partly python empty 3 false
              (map item_doc ["1"; "2"; "3"; "4"]) [JObj mix_header]
              [[mix_detail ["2"; "4"]]] (JStr "me")
              (JObj [("id", JStr "me")]) "2023-01-01T00:00:00"
              [JStr "1"; JStr "2"; JStr "3"; JStr "4"]
              [[JStr "2"; JStr "4"]]
              [track "3"; track "1"]
              [JStr "spotify:track:3"; JStr "spotify:track:1"]
              (JObj [("id", JStr "new");
                     ("name",
                      JStr "Liked but not playlisted 2023-01-01T00:00:00")])
              (JStr "new") (JObj [("snapshot_id", JStr "s1")]))
    as (Hbackup & _ & Hrun); try reflexivity.
  - apply (ExampleRuns.serves_liked ["1"; "2"; "3"; "4"]).
  - vm_compute. lia.
  - apply serves_playlists.
  - vm_compute. lia.
  - apply mix_listed. lia.
  - discriminate.
  - repeat constructor.
  - constructor; [|constructor].
    eexists _, _, _. repeat split; try reflexivity. repeat constructor.
  - repeat constructor.
  - repeat constructor.
  - vm_compute. repeat constructor.
  - repeat constructor.
  - split; [exact Hbackup | exact Hrun].
Defined.

(** The playlists could not be listed: all four liked tracks are added. *)
Lemma unlisted_then_reconcile :
  fst (@backup unlisted python 1 false empty) =
    Raise (SpotifyException 503) /\
  @make_playlist_with_liked_but_not_playlisted_tracks unlisted python
     (snd (@backup unlisted python 1 false empty)) =
    (Return [track "4"; track "3"; track "2"; track "1"],
     logged (snd (@backup unlisted python 1 false empty))
       [Track (JStr "4"); Track (JStr "3"); Track (JStr "2");
        Track (JStr "1"); Me;
        UserPlaylistCreate (JStr "me")
          "Liked but not playlisted 2023-01-01T00:00:00";
        PlaylistAddItems (JStr "new")
          [JStr "spotify:track:4"; JStr "spotify:track:3";
           JStr "spotify:track:2"; JStr "spotify:track:1"]]).
Proof.
  destruct (@failed_backup_then_reconcile unlisted python empty 1 false
              (map item_doc ["1"; "2"; "3"; "4"]) (SpotifyException 503)
              "2023-01-01T00:00:00"
              [JStr "1"; JStr "2"; JStr "3"; JStr "4"]
              [track "4"; track "3"; track "2"; track "1"]
              [JStr "spotify:track:4"; JStr "spotify:track:3";
               JStr "spotify:track:2"; JStr "spotify:track:1"]
              (JObj [("id", JStr "me")]) (JStr "me")
              (JObj [("id", JStr "new");
                     ("name",
                      JStr "Liked but not playlisted 2023-01-01T00:00:00")])
              (JStr "new") (JObj [("snapshot_id", JStr "s1")]))
    as (Hbackup & _ & Hrun); try reflexivity.
  - apply serves_override; [reflexivity|].
    apply (ExampleRuns.serves_liked ["1"; "2"; "3"; "4"]).
  - discriminate.
  - repeat constructor.
  - repeat constructor.
  - vm_compute. repeat constructor.
  - repeat constructor.
  - split; [exact Hbackup | exact Hrun].
Defined.

(** No liked track: the backup stores the playlist, the reconciliation
    finds no backup. *)
Lemma unliked_then_reconcile :
  fst (@backup unliked python 2 false empty) = Return tt /\
  playlists (db (snd (@backup unliked python 2 false empty))) =
    [stamp "2023-01-01T00:00:00" (mix_detail ["2"; "4"])] /\
  @make_playlist_with_liked_but_not_playlisted_tracks unliked python
     (snd (@backup unliked python 2 false empty)) =
    (Raise ValueError, snd (@backup unliked python 2 false empty)).
Proof.
  apply (@backup_without_saved_tracks_then_reconcile unliked python empty 2
           false [JObj mix_header] [[mix_detail ["2"; "4"]]] (JStr "me")
           (JObj [("id", JStr "me")])).
  - reflexivity.
  - apply (ExampleRuns.serves_liked []).
  - lia.
  - apply serves_playlists.
  - vm_compute. lia.
  - discriminate.
  - constructor; [|constructor]. right. split; [now left|].
    exists (JStr "Mix"), (JStr "mix"), (mix_detail ["2"; "4"]).
    repeat split; reflexivity.
Defined.

End FurtherRuns.
